(** * Cutelyst::Context -- the per-request execution context

    A shallow embedding of [Cutelyst/context.cpp]: the private state of a
    context ([ContextPrivate]) is a record, every method of [Context] that
    changes or reads it is a function on that record, and the code a
    component runs against the context is a finite tree of calls to those
    methods.  Output that leaves the context (log lines, signals, calls
    to the profiler and to the engine) is collected in a trace.

    Integers of the source are [Z]; [int] arithmetic wraps to 32 bits and
    status flags are combined with [Z.lor] and tested with [Z.land], as in
    the source. *)

From stdpp Require gmap strings.
From Stdlib Require Import ZArith List String Ascii Bool Lia DecimalString.
Import ListNotations.

Local Open Scope string_scope.
Local Open Scope list_scope.
Local Open Scope Z_scope.

(* ================================================================= *)
(** ** Qt value types used by the file *)

(** [QString::number(int)]: decimal digits, with a sign when negative. *)
Definition QString_number (n : Z) : string :=
  NilZero.string_of_int (Z.to_int n).

(** [QString::isEmpty]. *)
Definition QString_isEmpty (s : string) : bool :=
  match s with EmptyString => true | String _ _ => false end.

(** [QString::startsWith(QLatin1Char)]. *)
Definition QString_startsWith (c : ascii) (s : string) : bool :=
  match s with
  | EmptyString => false
  | String c' _ => Ascii.eqb c' c
  end.

Fixpoint QString_fill (c : ascii) (n : nat) : string :=
  match n with
  | O => EmptyString
  | S m => String c (QString_fill c m)
  end.

(** [QString::rightJustified(width, fill)]: the string padded on its left
    up to [width] characters; a string already that long is returned
    unchanged (the source never asks for truncation). *)
Definition QString_rightJustified (s : string) (width : Z) (fill : ascii) : string :=
  (QString_fill fill (Z.to_nat (width - Z.of_nat (String.length s))) ++ s)%string.

(** [QStringList::join(QLatin1Char)]. *)
Definition QStringList_join (sep : string) (l : list string) : string :=
  String.concat sep l.

(** [size()] of a Qt container, an [int]. *)
Definition size {A : Type} (l : list A) : Z := Z.of_nat (List.length l).

(** [QVector::operator[]]: defined for indices within the vector only. *)
Definition QVector_at {A : Type} (l : list A) (i : Z) : option A :=
  if i <? 0 then None else nth_error l (Z.to_nat i).

(** Arithmetic on [int]: results wrap to 32 bits, two's complement. *)
Definition int32 (z : Z) : Z := (z + 2 ^ 31) mod 2 ^ 32 - 2 ^ 31.

Definition INT_MIN : Z := - 2 ^ 31.
Definition INT_MAX : Z := 2 ^ 31 - 1.

(* ================================================================= *)
(** ** Components and the calls they make on the context *)

(** A [Component] has a name, a canonical path ([reverse]) and an
    [execute] operation that receives the context.  [isAction] tells
    whether [qobject_cast<Action *>] succeeds on it; an action also has
    the number of captures it requires.

    What [execute] does is the component's own business; for the context
    it is a sequence of calls to the public methods of [Context], each
    continuing with the value the call gave back ([Script]).  Methods
    that return [void] give back [true].  The accessors of the stash, the
    locale and the view are left out: they touch none of the fields
    below. *)
Inductive Component : Type :=
| mkComponent (name reverse : string) (isAction : bool)
              (numberOfCaptures : Z) (body : Script)
with Call : Type :=
| CallError (msg : string)              (* c->error(msg)        *)
| CallSetState (b : bool)               (* c->setState(b)       *)
| CallDetach (action : option Component)(* c->detach(action)    *)
| CallDetachAsync                       (* c->detachAsync()     *)
| CallAttachAsync                       (* c->attachAsync()     *)
| CallForward (action : Component)      (* c->forward(action)   *)
| CallExecute (code : Component)        (* c->execute(code)     *)
| CallFinalize                          (* c->finalize()        *)
| CallHasError                          (* c->error() const     *)
| CallState                             (* c->state()           *)
| CallDetached                          (* c->detached()        *)
with Script : Type :=
| Ret (ret : bool)
| Bind (call : Call) (k : bool -> Script).

Definition name (c : Component) : string :=
  match c with mkComponent n _ _ _ _ => n end.
Definition reverse (c : Component) : string :=
  match c with mkComponent _ r _ _ _ => r end.
Definition isAction (c : Component) : bool :=
  match c with mkComponent _ _ a _ _ => a end.
Definition numberOfCaptures (c : Component) : Z :=
  match c with mkComponent _ _ _ n _ => n end.
Definition body (c : Component) : Script :=
  match c with mkComponent _ _ _ _ b => b end.

(** A void call followed by the rest of the script. *)
Definition Then (call : Call) (k : Script) : Script := Bind call (fun _ => k).

(* ================================================================= *)
(** ** What leaves the context *)

Inductive Category : Type := CUTELYST_CORE | CUTELYST_ASYNC | CUTELYST_STATS.

Inductive Severity : Type := QtDebugMsg | QtInfoMsg | QtWarningMsg | QtCriticalMsg.

(** [Invoke n c] is the call [code->execute(this)] made by
    [Context::execute] while the stack holds [n] components ([c] on
    top), and [Returned n c ret] is its return.  [StatsReport] stands for
    the two report lines of [Context::finalize], whose text depends on the
    timer. *)
Inductive Event : Type :=
| Log (cat : Category) (sev : Severity) (text : string)
| Invoke (depth : nat) (code : Component)
| Returned (depth : nat) (code : Component) (ret : bool)
| ProfileStart (label : string)
| ProfileEnd (label : string)
| StatsReport
| AfterDispatch
| EngineFinalize.

(* ================================================================= *)
(** ** ContextPrivate *)

(** The fields of [ContextPrivate] that [context.cpp] reads or writes in
    the methods below; [status] is [engineRequest->status], [stats] tells
    whether [d->stats] is non-null, and [trace] collects the events. *)
Record ContextPrivate : Type := mkContextPrivate {
  error : list string;
  state : bool;
  stack : list Component;
  detached : bool;
  asyncDetached : Z;
  asyncAction : Z;
  pendingAsync : list Component;
  stats : bool;
  status : Z;
  trace : list Event
}.

Definition set_error (v : list string) (d : ContextPrivate) : ContextPrivate :=
  mkContextPrivate v (state d) (stack d) (detached d) (asyncDetached d)
    (asyncAction d) (pendingAsync d) (stats d) (status d) (trace d).
Definition set_state (v : bool) (d : ContextPrivate) : ContextPrivate :=
  mkContextPrivate (error d) v (stack d) (detached d) (asyncDetached d)
    (asyncAction d) (pendingAsync d) (stats d) (status d) (trace d).
Definition set_stack (v : list Component) (d : ContextPrivate) : ContextPrivate :=
  mkContextPrivate (error d) (state d) v (detached d) (asyncDetached d)
    (asyncAction d) (pendingAsync d) (stats d) (status d) (trace d).
Definition set_detached (v : bool) (d : ContextPrivate) : ContextPrivate :=
  mkContextPrivate (error d) (state d) (stack d) v (asyncDetached d)
    (asyncAction d) (pendingAsync d) (stats d) (status d) (trace d).
Definition set_asyncDetached (v : Z) (d : ContextPrivate) : ContextPrivate :=
  mkContextPrivate (error d) (state d) (stack d) (detached d) v
    (asyncAction d) (pendingAsync d) (stats d) (status d) (trace d).
Definition set_asyncAction (v : Z) (d : ContextPrivate) : ContextPrivate :=
  mkContextPrivate (error d) (state d) (stack d) (detached d) (asyncDetached d)
    v (pendingAsync d) (stats d) (status d) (trace d).
Definition set_stats (v : bool) (d : ContextPrivate) : ContextPrivate :=
  mkContextPrivate (error d) (state d) (stack d) (detached d) (asyncDetached d)
    (asyncAction d) (pendingAsync d) v (status d) (trace d).
Definition set_status (v : Z) (d : ContextPrivate) : ContextPrivate :=
  mkContextPrivate (error d) (state d) (stack d) (detached d) (asyncDetached d)
    (asyncAction d) (pendingAsync d) (stats d) v (trace d).
Definition set_trace (v : list Event) (d : ContextPrivate) : ContextPrivate :=
  mkContextPrivate (error d) (state d) (stack d) (detached d) (asyncDetached d)
    (asyncAction d) (pendingAsync d) (stats d) (status d) v.

(** An event is added at the end of the trace. *)
Definition emit (e : Event) (d : ContextPrivate) : ContextPrivate :=
  set_trace (trace d ++ [e]) d.

(** Modelled from the spec: the values of [EngineRequest::StatusFlag],
    which [enginerequest.h] declares.  The spec speaks of an
    asynchronous flag and of a finalized flag of the transport, two
    independent bits of one status word. *)
Definition Async : Z := 16.

(** Modelled from the spec: the finalized flag of
    [EngineRequest::StatusFlag], a bit of its own. *)
Definition Finalized : Z := 32.

(** [status & flag], as a truth value. *)
Definition has_flag (st flag : Z) : bool := negb (Z.land st flag =? 0).

(* ================================================================= *)
(** ** Methods of Context that do not run components *)

(** [Context::error(const QString &)]: an empty argument clears the list,
    any other is appended and logged as critical. *)
Definition Context_error (msg : string) (d : ContextPrivate) : ContextPrivate :=
  if QString_isEmpty msg then set_error [] d
  else emit (Log CUTELYST_CORE QtCriticalMsg msg) (set_error (error d ++ [msg]) d).

(** [Context::errors]. *)
Definition Context_errors (d : ContextPrivate) : list string := error d.

(** [Context::error() const]. *)
Definition Context_hasError (d : ContextPrivate) : bool :=
  negb (match error d with [] => true | _ :: _ => false end).

(** [Context::setState]. *)
Definition Context_setState (b : bool) (d : ContextPrivate) : ContextPrivate :=
  set_state b d.

(** [Context::detachAsync]. *)
Definition Context_detachAsync (d : ContextPrivate) : ContextPrivate :=
  let d := set_asyncDetached (int32 (asyncDetached d + 1)) d in
  set_status (Z.lor (status d) Async) d.

(** Modelled from the spec: [EngineRequest::finalize], which is defined
    outside [context.cpp].  By the spec it hands the completed response
    back to the transport, after which the context is finalized. *)
Definition EngineRequest_finalize (d : ContextPrivate) : ContextPrivate :=
  set_status (Z.lor (status d) Finalized) (emit EngineFinalize d).

(** [Context::finalize]. *)
Definition Context_finalize (d : ContextPrivate) : ContextPrivate :=
  if has_flag (status d) Finalized then
    emit (Log CUTELYST_CORE QtWarningMsg
              "Trying to finalize a finalized request! Skipping...") d
  else
    let d := if stats d then set_stats false (emit StatsReport d) else d in
    EngineRequest_finalize d.

(** [ContextPrivate::statsStartExecute]: the label of the component for
    the profiler, empty for internal components. *)
Definition statsStartExecute (code : Component) (d : ContextPrivate)
  : string * ContextPrivate :=
  if QString_startsWith "_"%char (name code) then (EmptyString, d)
  else
    let actionName := reverse code in
    let actionName :=
      if isAction code then ("/" ++ actionName)%string else actionName in
    let actionName :=
      if 2 <? size (stack d) then
        let actionName := ("-> " ++ actionName)%string in
        QString_rightJustified actionName
          (Z.of_nat (String.length actionName) + size (stack d) - 2) " "%char
      else actionName in
    (actionName, emit (ProfileStart actionName) d).

(** [ContextPrivate::statsFinishExecute]. *)
Definition statsFinishExecute (statsInfo : string) (d : ContextPrivate)
  : ContextPrivate :=
  emit (ProfileEnd statsInfo) d.

(** The recursion limit of [Context::execute]: the integer value of the
    environment variable RECURSION when it is set ([Some]), 1000
    otherwise. *)
Definition recursion_limit (RECURSION : option Z) : Z :=
  match RECURSION with
  | Some v => v
  | None => 1000
  end.

(** The message of the recursion guard; the three place markers of the
    pattern are filled in one pass. *)
Definition deep_recursion_msg (code : Component) (d : ContextPrivate) : string :=
  ("Deep recursion detected (stack size " ++ QString_number (size (stack d))
   ++ ") calling " ++ reverse code ++ ", " ++ name code)%string.

(** [QStack::push] and [QStack::pop] on [d->stack]; the top is the last
    element. *)
Definition push (code : Component) (d : ContextPrivate) : ContextPrivate :=
  set_stack (stack d ++ [code]) d.
Definition pop (d : ContextPrivate) : ContextPrivate :=
  set_stack (removelast (stack d)) d.

(* ================================================================= *)
(** ** Methods of Context that run components *)

Section Methods.

(** The environment of the process. *)
Variable RECURSION : option Z.

(** How the body of a component runs against the context: [None] when
    it gives no result. *)
Variable invoke : Script -> ContextPrivate -> option (bool * ContextPrivate).

(** The virtual call [code->execute(this)]. *)
Definition Component_execute (code : Component) (d : ContextPrivate)
  : option (bool * ContextPrivate) :=
  let depth := List.length (stack d) in
  match invoke (body code) (emit (Invoke depth code) d) with
  | None => None
  | Some (ret, d) => Some (ret, emit (Returned depth code ret) d)
  end.

(** [Context::execute]. *)
Definition Context_execute (code : Component) (d : ContextPrivate)
  : option (bool * ContextPrivate) :=
  let recursion := recursion_limit RECURSION in
  if size (stack d) >=? recursion then
    let msg := deep_recursion_msg code d in
    let d := Context_error msg d in
    let d := Context_setState false d in
    Some (false, d)
  else
    let d := push code d in
    if stats d then
      let (statsInfo, d) := statsStartExecute code d in
      match Component_execute code d with
      | None => None
      | Some (ret, d) =>
          let d :=
            if stats d && negb (QString_isEmpty statsInfo)
            then statsFinishExecute statsInfo d else d in
          Some (ret, pop d)
      end
    else
      match Component_execute code d with
      | None => None
      | Some (ret, d) => Some (ret, pop d)
      end.

(** Modelled from the spec: [Dispatcher::forward] on a component,
    which is defined outside [context.cpp].  By the spec the resolver
    runs the action as part of the current request cycle, leaves the
    bookkeeping of [detached] and [asyncDetached] alone, and returns
    the result of the action. *)
Definition Dispatcher_forward (action : Component) (d : ContextPrivate)
  : option (bool * ContextPrivate) :=
  Context_execute action d.

(** [Context::forward] on a component. *)
Definition Context_forward (action : Component) (d : ContextPrivate)
  : option (bool * ContextPrivate) :=
  Dispatcher_forward action d.

(** [Context::detach]. *)
Definition Context_detach (action : option Component) (d : ContextPrivate)
  : option ContextPrivate :=
  match action with
  | Some a =>
      match Dispatcher_forward a d with
      | None => None
      | Some (_, d) => Some d
      end
  | None => Some (set_detached true d)
  end.

(** The end of [Context::attachAsync], after its loop. *)
Definition attachAsync_done (d : ContextPrivate) : ContextPrivate :=
  if has_flag (status d) Async then
    Context_finalize (emit AfterDispatch d)
  else d.

(** The loop of [Context::attachAsync] and what follows it; [n] bounds
    the number of turns. *)
Fixpoint attachAsync_loop (n : nat) (d : ContextPrivate)
  : option ContextPrivate :=
  if asyncAction d <? size (pendingAsync d) then
    match n with
    | O => None
    | S n =>
        match QVector_at (pendingAsync d) (asyncAction d) with
        | None => None
        | Some action =>
            let d := set_asyncAction (asyncAction d + 1) d in
            match Context_execute action d with
            | None => None
            | Some (false, d) => Some (attachAsync_done d)
            | Some (true, d) =>
                if negb (asyncDetached d =? 0) then Some d
                else attachAsync_loop n d
            end
        end
    end
  else Some (attachAsync_done d).

(** [Context::attachAsync]. *)
Definition Context_attachAsync (n : nat) (d : ContextPrivate)
  : option ContextPrivate :=
  let d := set_asyncDetached (int32 (asyncDetached d - 1)) d in
  if negb (asyncDetached d =? 0) then Some d
  else if has_flag (status d) Finalized then
    Some (emit (Log CUTELYST_ASYNC QtWarningMsg
                    "Trying to async attach to a finalized request! Skipping...") d)
  else attachAsync_loop n d.

(** One call of a component on the context, with the value it gives
    back. *)
Definition perform (n : nat) (call : Call) (d : ContextPrivate)
  : option (bool * ContextPrivate) :=
  match call with
  | CallError msg => Some (true, Context_error msg d)
  | CallSetState b => Some (true, Context_setState b d)
  | CallDetach action =>
      match Context_detach action d with
      | None => None
      | Some d => Some (true, d)
      end
  | CallDetachAsync => Some (true, Context_detachAsync d)
  | CallAttachAsync =>
      match Context_attachAsync n d with
      | None => None
      | Some d => Some (true, d)
      end
  | CallForward action => Context_forward action d
  | CallExecute code => Context_execute code d
  | CallFinalize => Some (true, Context_finalize d)
  | CallHasError => Some (Context_hasError d, d)
  | CallState => Some (state d, d)
  | CallDetached => Some (detached d, d)
  end.

End Methods.

(** The body of a component, run call by call.  [fuel] bounds the depth
    of what is run; [None] is given when it does not suffice, and when the
    source indexes [pendingAsync] out of range. *)
Fixpoint run (RECURSION : option Z) (fuel : nat) (s : Script) (d : ContextPrivate)
  {struct fuel} : option (bool * ContextPrivate) :=
  match fuel with
  | O => None
  | S fuel =>
      match s with
      | Ret ret => Some (ret, d)
      | Bind call k =>
          match perform RECURSION (run RECURSION fuel) fuel call d with
          | None => None
          | Some (r, d) => run RECURSION fuel (k r) d
          end
      end
  end.

(** The methods with components run by [run]. *)
Definition execute (RECURSION : option Z) (fuel : nat) :=
  Context_execute RECURSION (run RECURSION fuel).
Definition forward (RECURSION : option Z) (fuel : nat) :=
  Context_forward RECURSION (run RECURSION fuel).
Definition detach (RECURSION : option Z) (fuel : nat) :=
  Context_detach RECURSION (run RECURSION fuel).
Definition attachAsync (RECURSION : option Z) (fuel : nat) :=
  Context_attachAsync RECURSION (run RECURSION fuel) fuel.

(* ================================================================= *)
(** ** Shapes of scripts *)

(** [all_calls p s]: every call that [s] makes, and every call made by a
    component that [s] hands to the context, satisfies [p]. *)
Fixpoint all_calls (p : Call -> bool) (s : Script) {struct s} : bool :=
  match s with
  | Ret _ => true
  | Bind call k =>
      call_all_calls p call && all_calls p (k true) && all_calls p (k false)
  end
with call_all_calls (p : Call -> bool) (call : Call) {struct call} : bool :=
  p call &&
  match call with
  | CallDetach (Some a) => component_all_calls p a
  | CallForward a => component_all_calls p a
  | CallExecute a => component_all_calls p a
  | _ => true
  end
with component_all_calls (p : Call -> bool) (c : Component) {struct c} : bool :=
  match c with
  | mkComponent _ _ _ _ b => all_calls p b
  end.

(** The number of calls in a script, those of the components it hands to
    the context included; along the two continuations of a call, the
    larger. *)
Fixpoint script_size (s : Script) {struct s} : nat :=
  match s with
  | Ret _ => 1
  | Bind call k =>
      S (call_size call + Nat.max (script_size (k true)) (script_size (k false)))
  end
with call_size (call : Call) {struct call} : nat :=
  match call with
  | CallDetach (Some a) => component_size a
  | CallForward a => component_size a
  | CallExecute a => component_size a
  | _ => O
  end
with component_size (c : Component) {struct c} : nat :=
  match c with
  | mkComponent _ _ _ _ b => S (script_size b)
  end.

(** The entries of [pendingAsync] from the cursor on. *)
Definition remaining (d : ContextPrivate) : list Component :=
  skipn (Z.to_nat (asyncAction d)) (pendingAsync d).

(** Fuel that suffices to run a script in a context: the size of the
    script and of every pending action not yet run. *)
Definition pending_size (d : ContextPrivate) : nat :=
  list_sum (map component_size (remaining d)).

Definition enough_fuel (s : Script) (d : ContextPrivate) : nat :=
  (script_size s + pending_size d)%nat.

(** Calls that a component may make without resuming or finalizing the
    request itself. *)
Definition no_attach_finalize (call : Call) : bool :=
  match call with
  | CallAttachAsync | CallFinalize => false
  | _ => true
  end.

(** Calls other than [error] with an empty message. *)
Definition no_clear (call : Call) : bool :=
  match call with
  | CallError msg => negb (QString_isEmpty msg)
  | _ => true
  end.

(** Calls other than [detach] without an action. *)
Definition no_plain_detach (call : Call) : bool :=
  match call with
  | CallDetach None => false
  | _ => true
  end.

(** The components invoked, and the values returned, at one depth of the
    stack, in the order of the trace. *)
Fixpoint invoked_at (depth : nat) (tr : list Event) : list Component :=
  match tr with
  | [] => []
  | Invoke n c :: tr =>
      if Nat.eqb n depth then c :: invoked_at depth tr else invoked_at depth tr
  | _ :: tr => invoked_at depth tr
  end.

Fixpoint returned_at (depth : nat) (tr : list Event) : list bool :=
  match tr with
  | [] => []
  | Returned n _ ret :: tr =>
      if Nat.eqb n depth then ret :: returned_at depth tr else returned_at depth tr
  | _ :: tr => returned_at depth tr
  end.

(** How often the response was handed to the transport. *)
Fixpoint finalizations (tr : list Event) : nat :=
  match tr with
  | [] => O
  | EngineFinalize :: tr => S (finalizations tr)
  | _ :: tr => finalizations tr
  end.

(* ================================================================= *)
(** ** URI builder *)

(** The parts of a [QUrl] that [uriFor] sets or keeps: a path in decoded
    form and a query that is absent ([None]) or present. *)
Record QUrl : Type := mkQUrl {
  url_scheme : string;
  url_authority : string;
  url_path : string;
  url_query : option string
}.

(** A default-constructed [QUrl]. *)
Definition QUrl_empty : QUrl := mkQUrl EmptyString EmptyString EmptyString None.

(** [QUrlQuery]: the query items in the order of the query string. *)
Definition QUrlQuery : Type := list (string * string).

(** [QUrlQuery::addQueryItem] appends the pair at the end of the query. *)
Definition QUrlQuery_addQueryItem (query : QUrlQuery) (key value : string)
  : QUrlQuery :=
  query ++ [(key, value)].

(** [QUrlQuery::toString], with the default delimiters, for items that
    need no escaping. *)
Definition QUrlQuery_toString (query : QUrlQuery) : string :=
  String.concat "&" (map (fun kv => (fst kv ++ "=" ++ snd kv)%string) query).

(** [QUrl::setPath] in [QUrl::DecodedMode]. *)
Definition QUrl_setPath (p : string) (u : QUrl) : QUrl :=
  mkQUrl (url_scheme u) (url_authority u) p (url_query u).

(** [QUrl::setQuery(const QUrlQuery &)]: an empty query removes the query
    component. *)
Definition QUrl_setQuery (query : QUrlQuery) (u : QUrl) : QUrl :=
  mkQUrl (url_scheme u) (url_authority u) (url_path u)
    (match query with
     | [] => None
     | _ :: _ => Some (QUrlQuery_toString query)
     end).

(** [ParamsMultiMap] is a [QMultiMap<QString, QString>]: its entries, in
    the order in which an iterator walks them from [constBegin] to
    [constEnd]. *)
Definition ParamsMultiMap : Type := list (string * string).

(** [QMultiMap::insert]: entries are kept sorted by key, and a new entry
    goes before the entries that already have its key. *)
Fixpoint ParamsMultiMap_insert (key value : string) (m : ParamsMultiMap)
  : ParamsMultiMap :=
  match m with
  | [] => [(key, value)]
  | (k, v) :: rest =>
      if String.ltb k key then (k, v) :: ParamsMultiMap_insert key value rest
      else (key, value) :: m
  end.

(** The loop of [uriFor] over [queryValues]: [it] is the position of the
    iterator, which starts at [constEnd] and stops at [constBegin]. *)
Fixpoint uriFor_query (it : nat) (queryValues : ParamsMultiMap)
  (query : QUrlQuery) : QUrlQuery :=
  match it with
  | O => query
  | S it =>
      match nth_error queryValues it with
      | Some (key, value) =>
          uriFor_query it queryValues (QUrlQuery_addQueryItem query key value)
      | None => query
      end
  end.

(** [Context::uriFor(path, args, queryValues)]; [requestUri] is
    [d->request->uri()] and [controllerNS] is
    [d->action->controller()->ns()]. *)
Definition Context_uriFor (requestUri : QUrl) (controllerNS : string)
  (path : string) (args : list string) (queryValues : ParamsMultiMap) : QUrl :=
  let uri := requestUri in
  let _path :=
    if QString_isEmpty path then
      if negb (QString_isEmpty controllerNS) then controllerNS else EmptyString
    else path in
  let _path :=
    match args with
    | [] => _path
    | _ :: _ =>
        if String.eqb _path "/" then (_path ++ QStringList_join "/" args)%string
        else (_path ++ "/" ++ QStringList_join "/" args)%string
    end in
  let _path :=
    if negb (QString_startsWith "/"%char _path) then ("/" ++ _path)%string
    else _path in
  let uri := QUrl_setPath _path uri in
  let query : QUrlQuery :=
    match queryValues with
    | [] => []
    | _ :: _ => uriFor_query (List.length queryValues) queryValues []
    end in
  QUrl_setQuery query uri.

(** What [uriFor] asks of the dispatcher. *)
Record Dispatcher : Type := mkDispatcher {
  expandAction : option Component -> option Component;
  uriForAction : Component -> list string -> string
}.

(** The loop of [uriFor(action, ...)] that moves leading arguments into
    the captures while captures are missing. *)
Fixpoint take_captures (n : Z) (localCaptures localArgs : list string)
  {struct localArgs} : list string * list string :=
  match localArgs with
  | [] => (localCaptures, localArgs)
  | first :: rest =>
      if size localCaptures <? n
      then take_captures n (localCaptures ++ [first]) rest
      else (localCaptures, localArgs)
  end.

(** The captures and arguments of [uriFor(action, ...)] once the number
    of captures of the expanded action is known. *)
Definition split_captures (n : Z) (captures args : list string)
  : list string * list string :=
  if 0 <? n then take_captures n captures args
  else ([], captures ++ args).

(** [Context::uriFor(action, captures, args, queryValues)]; [current] is
    [d->action].  There is no result when the dispatcher expands to no
    action, which the source dereferences.  The warning logged for an
    unknown action comes with the result. *)
Definition Context_uriFor_action (dispatcher : Dispatcher)
  (requestUri : QUrl) (controllerNS : string) (current : Component)
  (action : option Component) (captures args : list string)
  (queryValues : ParamsMultiMap) : option (list Event * QUrl) :=
  let uri := QUrl_empty in
  let localAction := match action with Some a => a | None => current end in
  match expandAction dispatcher action with
  | None => None
  | Some expandedAction =>
      let (localCaptures, localArgs) :=
        split_captures (numberOfCaptures expandedAction) captures args in
      let path := uriForAction dispatcher localAction localCaptures in
      if QString_isEmpty path then
        Some ([Log CUTELYST_CORE QtWarningMsg "Can not find action for"], uri)
      else
        Some ([], Context_uriFor requestUri controllerNS path localArgs queryValues)
  end.

(* ================================================================= *)
(** ** The two halves of execute around the body of the component *)

(** Before the body runs, [execute] has pushed the component and added
    events [pre] to the trace; after it, [execute] adds events [post] and
    pops the stack. *)
Definition enter (code : Component) (pre : list Event) (d : ContextPrivate)
  : ContextPrivate :=
  set_trace (trace d ++ pre) (set_stack (stack d ++ [code]) d).

Definition leave (post : list Event) (d : ContextPrivate) : ContextPrivate :=
  set_stack (removelast (stack d)) (set_trace (trace d ++ post) d).

Definition is_profile (e : Event) : Prop :=
  match e with
  | ProfileStart _ | ProfileEnd _ => True
  | _ => False
  end.

(* ================================================================= *)
(** ** Sample components, contexts and requests *)

(** An action that returns success, one that records an error and
    returns failure, and one that suspends the request and returns
    success. *)
Definition act_ok : Component :=
  mkComponent "index" "root/index" true 0 (Ret true).
Definition act_fail : Component :=
  mkComponent "broken" "root/broken" true 0
    (Then (CallError "no such record") (Ret false)).
Definition act_suspend : Component :=
  mkComponent "fetch" "root/fetch" true 0 (Then CallDetachAsync (Ret true)).

(** An action that runs another component, finalizes the response and
    returns failure. *)
Definition act_nested : Component :=
  mkComponent "outer" "root/outer" true 0
    (Bind (CallExecute act_ok) (fun _ => Then CallFinalize (Ret false))).

(** An action with one capture. *)
Definition act_item : Component :=
  mkComponent "item" "shop/item" true 1 (Ret true).

(** A context at the start of a request, with the given pending
    actions. *)
Definition fresh (pending : list Component) : ContextPrivate :=
  mkContextPrivate [] true [] false 0 0 pending false 0 [].

(** A dispatcher that expands every action to itself and builds the path
    of an action from its canonical path and the captures. *)
Definition plain_dispatcher : Dispatcher :=
  mkDispatcher
    (fun action => action)
    (fun action captures =>
       QStringList_join "/" (("/" ++ reverse action)%string :: captures)).

Definition request_uri : QUrl :=
  mkQUrl "http" "example.org" "/shop" (Some "page=2").

(* ================================================================= *)
(** ** Relations between the context before and after a run *)

(** [CallRule RECURSION P Inv]: the relation [Inv] between the context
    before and after is kept by every step that the methods take on
    behalf of calls allowed by [P]. *)
Record CallRule (RECURSION : option Z) (P : Call -> bool)
  (Inv : ContextPrivate -> ContextPrivate -> Prop) : Prop := mkCallRule {
  rule_refl : forall d, Inv d d;
  rule_trans : forall d1 d2 d3, Inv d1 d2 -> Inv d2 d3 -> Inv d1 d3;
  rule_error :
    forall msg d, P (CallError msg) = true -> Inv d (Context_error msg d);
  rule_setState :
    forall b d, P (CallSetState b) = true -> Inv d (Context_setState b d);
  rule_detach :
    forall d, P (CallDetach None) = true -> Inv d (set_detached true d);
  rule_detachAsync :
    forall d, P CallDetachAsync = true -> Inv d (Context_detachAsync d);
  rule_finalize :
    forall d, P CallFinalize = true -> Inv d (Context_finalize d);
  rule_guard :
    forall c d,
      recursion_limit RECURSION <= size (stack d) ->
      Inv d (Context_setState false (Context_error (deep_recursion_msg c d) d));
  rule_bracket :
    forall c d d2 r ps pe,
      Forall is_profile ps -> Forall is_profile pe ->
      Inv (enter c (ps ++ [Invoke (S (List.length (stack d))) c]) d) d2 ->
      Inv d (leave (Returned (S (List.length (stack d))) c r :: pe) d2);
  rule_attach :
    P CallAttachAsync = true ->
    forall d,
      Inv d (set_asyncDetached (int32 (asyncDetached d - 1)) d) /\
      (forall text, Inv d (emit (Log CUTELYST_ASYNC QtWarningMsg text) d)) /\
      Inv d (set_asyncAction (asyncAction d + 1) d) /\
      Inv d (attachAsync_done d)
}.

(** When scripts may call [attachAsync], the pending actions are bound to
    [P] as well. *)
Definition queue_ok (P : Call -> bool) (d : ContextPrivate) : Prop :=
  P CallAttachAsync = true ->
  forallb (component_all_calls P) (pendingAsync d) = true.

(** [invoke] keeps [Inv], and the queue, for scripts bound to [P]. *)
Definition keeps (P : Call -> bool)
  (Inv : ContextPrivate -> ContextPrivate -> Prop)
  (invoke : Script -> ContextPrivate -> option (bool * ContextPrivate)) : Prop :=
  forall s d r d',
    invoke s d = Some (r, d') ->
    all_calls P s = true -> queue_ok P d ->
    Inv d d' /\ pendingAsync d' = pendingAsync d.

(** The stack and the cursor of the context before and after. *)
Definition frame (d d' : ContextPrivate) : Prop :=
  stack d' = stack d /\ asyncAction d <= asyncAction d'.

(** The errors before are the first of the errors after. *)
Definition errors_kept (d d' : ContextPrivate) : Prop :=
  exists more : list string, error d' = error d ++ more.

(** The flag [detached] is as before. *)
Definition detached_kept (d d' : ContextPrivate) : Prop :=
  detached d' = detached d.

(** An event of a component that runs with more than [m] components on
    the stack, and that is neither the signal after dispatch nor the
    handing over of the response. *)
Definition deeper (m : nat) (e : Event) : Prop :=
  match e with
  | Invoke n _ => (m < n)%nat
  | Returned n _ _ => (m < n)%nat
  | AfterDispatch | EngineFinalize => False
  | _ => True
  end.

(** What a component that neither resumes nor finalizes leaves alone:
    stack, cursor and the finalized flag are as before, the asynchronous
    flag stays once set, and the trace grows by events of deeper
    components only. *)
Definition quiet (d d' : ContextPrivate) : Prop :=
  stack d' = stack d /\
  asyncAction d' = asyncAction d /\
  has_flag (status d') Finalized = has_flag (status d) Finalized /\
  (has_flag (status d) Async = true -> has_flag (status d') Async = true) /\
  exists tr, trace d' = trace d ++ tr /\ Forall (deeper (List.length (stack d))) tr.

(** [d'] is what [attachAsync] leaves when its loop ends in [d1] with the
    asynchronous flag set: the signal after dispatch is emitted and the
    response is handed over. *)
Definition finalized_after (d1 d' : ContextPrivate) : Prop :=
  d' = Context_finalize (emit AfterDispatch d1) /\
  has_flag (status d') Finalized = true /\
  finalizations (trace d') = S (finalizations (trace d1)).

(** Unfolds the methods that change the context directly and splits on
    their tests. *)
Ltac unfold_methods :=
  unfold attachAsync_done, Context_finalize, EngineRequest_finalize,
    Context_error, Context_setState, Context_detachAsync, enter, leave, emit;
  repeat match goal with
         | |- context [if ?b then _ else _] => destruct b
         end;
  cbn [error state stack detached asyncDetached asyncAction pendingAsync stats
       status trace set_error set_state set_stack set_detached
       set_asyncDetached set_asyncAction set_stats set_status set_trace].

(* ================================================================= *)
(** ** The stash *)

(** [QVariant]: the values the stash holds, as far as the file tells them
    apart; a default-constructed [QVariant] is invalid.  A
    [ParamsMultiMap] is wrapped by [QVariant::fromValue]. *)
Inductive QVariant : Type :=
| QVariant_invalid
| QVariant_bool (b : bool)
| QVariant_int (z : Z)
| QVariant_string (s : string)
| QVariant_fromParams (map : ParamsMultiMap).

(** [QVariantHash] is a [QHash<QString, QVariant>], a finite map; the
    stash is [d->stash]. *)
Abbreviation QVariantHash := (stdpp.gmap.gmap string QVariant).

(** [QHash::value(key, defaultValue)]. *)
Definition QHash_value (h : QVariantHash) (key : string) (defaultValue : QVariant)
  : QVariant :=
  match stdpp.base.lookup key h with
  | Some value => value
  | None => defaultValue
  end.

(** [QHash::contains]. *)
Definition QHash_contains (h : QVariantHash) (key : string) : bool :=
  match stdpp.base.lookup key h with
  | Some _ => true
  | None => false
  end.

(** [QHash::insert]: the value of a key that is present is replaced. *)
Definition QHash_insert (key : string) (value : QVariant) (h : QVariantHash)
  : QVariantHash :=
  stdpp.base.insert key value h.

(** [QHash::remove]: the number of items removed, and the hash without
    the key. *)
Definition QHash_remove (key : string) (h : QVariantHash) : Z * QVariantHash :=
  ((if QHash_contains h key then 1 else 0), stdpp.base.delete key h).

(** [QHash::take]: the value of the key, default-constructed when the
    key is absent, and the hash without the key. *)
Definition QHash_take (key : string) (h : QVariantHash) : QVariant * QVariantHash :=
  (QHash_value h key QVariant_invalid, stdpp.base.delete key h).

(** [Context::stash(const QString &key) const]. *)
Definition Context_stash_key (key : string) (stash : QVariantHash) : QVariant :=
  QHash_value stash key QVariant_invalid.

(** [Context::stash(const QString &key, const QVariant &defaultValue) const]. *)
Definition Context_stash_default (key : string) (defaultValue : QVariant)
  (stash : QVariantHash) : QVariant :=
  QHash_value stash key defaultValue.

(** [Context::stashTake]. *)
Definition Context_stashTake (key : string) (stash : QVariantHash)
  : QVariant * QVariantHash :=
  QHash_take key stash.

(** [Context::stashRemove]: the count of [QHash::remove] as a [bool]. *)
Definition Context_stashRemove (key : string) (stash : QVariantHash)
  : bool * QVariantHash :=
  let (count, stash) := QHash_remove key stash in
  (negb (count =? 0), stash).

(** [Context::setStash(const QString &key, const QVariant &value)]. *)
Definition Context_setStash (key : string) (value : QVariant)
  (stash : QVariantHash) : QVariantHash :=
  QHash_insert key value stash.

(** [Context::setStash(const QString &key, const ParamsMultiMap &map)]. *)
Definition Context_setStash_map (key : string) (map : ParamsMultiMap)
  (stash : QVariantHash) : QVariantHash :=
  QHash_insert key (QVariant_fromParams map) stash.

(** [Context::stash(const QVariantHash &unite)]: the loop over [unite]
    from [constBegin] to [constEnd], in the order in which the hash
    keeps its entries. *)
Definition Context_stash_unite (unite : QVariantHash) (stash : QVariantHash)
  : QVariantHash :=
  stdpp.fin_maps.map_fold (fun key value stash => QHash_insert key value stash)
    stash unite.

(* ================================================================= *)
(** ** More of the URI builder and of the context *)

(** [Context::uriForAction(path, captures, args, queryValues)];
    [getActionByPath] is the lookup of the dispatcher. *)
Definition Context_uriForAction (getActionByPath : string -> option Component)
  (dispatcher : Dispatcher) (requestUri : QUrl) (controllerNS : string)
  (current : Component) (path : string) (captures args : list string)
  (queryValues : ParamsMultiMap) : option (list Event * QUrl) :=
  let uri := QUrl_empty in
  match getActionByPath path with
  | None => Some ([Log CUTELYST_CORE QtWarningMsg "Can not find action for"], uri)
  | Some action =>
      Context_uriFor_action dispatcher requestUri controllerNS current
        (Some action) captures args queryValues
  end.

(** [n] calls of [detachAsync] and of [attachAsync] in a row. *)
Definition detachAsync_times (n : nat) (d : ContextPrivate) : ContextPrivate :=
  Nat.iter n Context_detachAsync d.

Fixpoint attachAsync_times (RECURSION : option Z) (fuel : nat) (n : nat)
  (d : ContextPrivate) : option ContextPrivate :=
  match n with
  | O => Some d
  | S n =>
      match attachAsync RECURSION fuel d with
      | None => None
      | Some d => attachAsync_times RECURSION fuel n d
      end
  end.

(** The warning of [attachAsync] for a finalized request. *)
Definition attach_finalized_warning : Event :=
  Log CUTELYST_ASYNC QtWarningMsg
      "Trying to async attach to a finalized request! Skipping...".

(* ================================================================= *)
(** ** Relations kept by every run, with what the guards know *)

(** [GuardedRule RECURSION Inv]: as [CallRule] for scripts that may make
    any call, where the steps of [execute] and of the loop of
    [attachAsync] come with what their tests established: the stack is
    below the recursion limit when a component is pushed, the profiler is
    only told of an end after a start and only while statistics are kept,
    and the cursor is within the queue when it is moved on. *)
(** The events of the profiler around the body of a component: none, or
    a start that an end with the same label may follow. *)
Definition profiled (ps pe : list Event) : Prop :=
  (ps = [] /\ pe = [])
  \/ exists label,
       ps = [ProfileStart label] /\ (pe = [] \/ pe = [ProfileEnd label]).

Record GuardedRule (RECURSION : option Z)
  (Inv : ContextPrivate -> ContextPrivate -> Prop) : Prop := mkGuardedRule {
  guarded_refl : forall d, Inv d d;
  guarded_trans : forall d1 d2 d3, Inv d1 d2 -> Inv d2 d3 -> Inv d1 d3;
  guarded_error : forall msg d, Inv d (Context_error msg d);
  guarded_setState : forall b d, Inv d (Context_setState b d);
  guarded_detach : forall d, Inv d (set_detached true d);
  guarded_detachAsync : forall d, Inv d (Context_detachAsync d);
  guarded_finalize : forall d, Inv d (Context_finalize d);
  guarded_limit :
    forall c d,
      recursion_limit RECURSION <= size (stack d) ->
      Inv d (Context_setState false (Context_error (deep_recursion_msg c d) d));
  guarded_bracket :
    forall c d d2 r ps pe,
      size (stack d) < recursion_limit RECURSION ->
      profiled ps pe ->
      (stats d = false -> ps = []) ->
      (stats d2 = false -> pe = []) ->
      Inv (enter c (ps ++ [Invoke (S (List.length (stack d))) c]) d) d2 ->
      Inv d (leave (Returned (S (List.length (stack d))) c r :: pe) d2);
  guarded_decrement :
    forall d, Inv d (set_asyncDetached (int32 (asyncDetached d - 1)) d);
  guarded_warning :
    forall text d, Inv d (emit (Log CUTELYST_ASYNC QtWarningMsg text) d);
  guarded_advance :
    forall d,
      0 <= asyncAction d < size (pendingAsync d) ->
      Inv d (set_asyncAction (asyncAction d + 1) d);
  guarded_done : forall d, Inv d (attachAsync_done d)
}.

(** [invoke] keeps [Inv]. *)
Definition keeps_guarded
  (Inv : ContextPrivate -> ContextPrivate -> Prop)
  (invoke : Script -> ContextPrivate -> option (bool * ContextPrivate)) : Prop :=
  forall s d r d', invoke s d = Some (r, d') -> Inv d d'.

(** The cursor does not move back, nor past the end of the queue, and the
    queue is as before. *)
Definition cursor_within (d d' : ContextPrivate) : Prop :=
  pendingAsync d' = pendingAsync d /\
  asyncAction d <= asyncAction d' /\
  (asyncAction d <= size (pendingAsync d) ->
   asyncAction d' <= size (pendingAsync d)).

(** The events added to the trace, when the trace only grew. *)
Definition added (d d' : ContextPrivate) (tr : list Event) : Prop :=
  trace d' = trace d ++ tr.

(** No component is invoked with more than [limit] components on the
    stack. *)
Definition invoked_within (limit : Z) (e : Event) : Prop :=
  match e with
  | Invoke n _ => Z.of_nat n <= limit
  | _ => True
  end.

Definition depth_bounded (limit : Z) (d d' : ContextPrivate) : Prop :=
  exists tr, added d d' tr /\ Forall (invoked_within limit) tr.

(** Events of the profiler and of the statistics. *)
Definition is_stats_event (e : Event) : bool :=
  match e with
  | ProfileStart _ | ProfileEnd _ | StatsReport => true
  | _ => false
  end.

Fixpoint profile_starts (tr : list Event) : nat :=
  match tr with
  | [] => O
  | ProfileStart _ :: tr => S (profile_starts tr)
  | _ :: tr => profile_starts tr
  end.

Fixpoint profile_ends (tr : list Event) : nat :=
  match tr with
  | [] => O
  | ProfileEnd _ :: tr => S (profile_ends tr)
  | _ :: tr => profile_ends tr
  end.

(** Without statistics nothing is reported to the profiler and the
    statistics stay off; with or without, the profiler is told of no more
    ends than starts. *)
Definition profiling_kept (d d' : ContextPrivate) : Prop :=
  exists tr,
    added d d' tr /\
    (profile_ends tr <= profile_starts tr)%nat /\
    (stats d = false ->
     stats d' = false /\ forallb (fun e => negb (is_stats_event e)) tr = true).

(** The response is handed over at most once, and a finalized context
    stays finalized. *)
Definition finalized_once (d d' : ContextPrivate) : Prop :=
  exists tr,
    added d d' tr /\
    if has_flag (status d) Finalized
    then has_flag (status d') Finalized = true /\ finalizations tr = O
    else (has_flag (status d') Finalized = false /\ finalizations tr = O)
         \/ (has_flag (status d') Finalized = true /\ finalizations tr = 1%nat).

(** Once detached, detached. *)
Definition detached_stays (d d' : ContextPrivate) : Prop :=
  detached d = true -> detached d' = true.

(* ================================================================= *)
(** ** The turns of the loop of attachAsync *)








(** A finalized context keeps no statistics, after as before. *)
Definition stats_off_once_finalized (d d' : ContextPrivate) : Prop :=
  (has_flag (status d) Finalized = true -> stats d = false) ->
  (has_flag (status d') Finalized = true -> stats d' = false).

(** An action that suspends the request and resumes it at once, and a
    request with statistics. *)
Definition act_resume : Component :=
  mkComponent "again" "root/again" true 0
    (Then CallDetachAsync (Then CallAttachAsync (Ret true))).

Definition fresh_with_stats : ContextPrivate :=
  mkContextPrivate [] true [] false 0 0 [] true 0 [].

(* ================================================================= *)
(** * Properties *)

(** ** Integers and flags *)

Lemma int32_small (z : Z) : INT_MIN <= z <= INT_MAX -> int32 z = z.
Proof.
  unfold int32, INT_MIN, INT_MAX. intros H.
  rewrite Z.mod_small; lia.
Qed.

Lemma has_flag_lor_same (st flag : Z) :
  0 < flag -> has_flag (Z.lor st flag) flag = true.
Proof.
  intros Hpos. unfold has_flag.
  rewrite Z.land_lor_distr_l, Z.land_diag.
  destruct (Z.eqb_spec (Z.lor (Z.land st flag) flag) 0) as [E | E]; [| reflexivity].
  apply Z.lor_eq_0_iff in E. lia.
Qed.

Lemma has_flag_lor_other (st f g : Z) :
  Z.land f g = 0 -> has_flag (Z.lor st f) g = has_flag st g.
Proof.
  intros H. unfold has_flag.
  now rewrite Z.land_lor_distr_l, H, Z.lor_0_r.
Qed.

Lemma finalizations_app (tr1 tr2 : list Event) :
  finalizations (tr1 ++ tr2) = (finalizations tr1 + finalizations tr2)%nat.
Proof.
  induction tr1 as [| e tr1 IH]; [reflexivity |].
  destruct e; simpl; rewrite IH; reflexivity.
Qed.

Lemma finalizations_repeat_log
  (cat : Category) (sev : Severity) (text : string) (n : nat) :
  finalizations (repeat (Log cat sev text) n) = O.
Proof. induction n as [| n IH]; [reflexivity | exact IH]. Qed.

(* ================================================================= *)
(** ** The recursion guard of execute *)

(** C3.  When the stack already holds as many components as the
    recursion limit allows (1000, or the value of RECURSION in the
    environment), [execute] of any component returns failure at once: one
    message naming the depth, the canonical path and the name of the
    component is appended to the errors (and logged), the state becomes
    false, and nothing else changes -- the stack is as it was, and the
    trace shows that the component was not invoked. *)
Theorem execute_at_recursion_limit
  (RECURSION : option Z) (fuel : nat) (c : Component) (d : ContextPrivate) :
  size (stack d) >= recursion_limit RECURSION ->
  let msg :=
    ("Deep recursion detected (stack size " ++ QString_number (size (stack d))
     ++ ") calling " ++ reverse c ++ ", " ++ name c)%string in
  recursion_limit None = 1000 /\
  (forall v, recursion_limit (Some v) = v) /\
  execute RECURSION fuel c d =
  Some (false,
        mkContextPrivate (error d ++ [msg]) false (stack d) (detached d)
          (asyncDetached d) (asyncAction d) (pendingAsync d) (stats d)
          (status d) (trace d ++ [Log CUTELYST_CORE QtCriticalMsg msg])).
Proof.
  intros Hlimit msg.
  split; [reflexivity |]. split; [reflexivity |].
  unfold execute, Context_execute.
  apply Z.ge_le, Z.geb_le in Hlimit. rewrite Hlimit.
  reflexivity.
Qed.

(* ================================================================= *)
(** ** attachAsync while suspensions are outstanding *)

(** C2.  While more than one suspension is outstanding, [attachAsync]
    takes one off the count and does nothing else: every other field of
    the context, the trace included, is as before.  And whenever a call
    of [attachAsync] does anything besides, the count it left is 0. *)
Theorem attachAsync_outstanding
  (RECURSION : option Z) (fuel : nat) (d : ContextPrivate) :
  1 < asyncDetached d <= INT_MAX ->
  attachAsync RECURSION fuel d = Some (set_asyncDetached (asyncDetached d - 1) d)
  /\ (forall d0 d' : ContextPrivate,
        attachAsync RECURSION fuel d0 = Some d' ->
        d' <> set_asyncDetached (int32 (asyncDetached d0 - 1)) d0 ->
        int32 (asyncDetached d0 - 1) = 0).
Proof.
  intros Hdepth. split.
  - unfold attachAsync, Context_attachAsync.
    rewrite int32_small by (unfold INT_MIN, INT_MAX in *; lia).
    cbn [asyncDetached set_asyncDetached].
    destruct (Z.eqb_spec (asyncDetached d - 1) 0) as [E | E]; [lia | reflexivity].
  - intros d0 d' Hrun Hother.
    unfold attachAsync, Context_attachAsync in Hrun.
    cbn [asyncDetached set_asyncDetached] in Hrun.
    destruct (Z.eqb_spec (int32 (asyncDetached d0 - 1)) 0) as [E | E]; [exact E |].
    cbn [negb] in Hrun. injection Hrun as <-. now contradiction Hother.
Qed.

(** C6, as the code has it.  A call of [attachAsync] that no
    [detachAsync] preceded is accepted in silence: the count goes from 0
    to -1 and nothing else changes.  A later pair of [detachAsync] and
    [attachAsync] then brings the count to 0 and back to -1, so that this
    [attachAsync] returns at once as well: it sets the asynchronous flag of
    the transport and leaves queue, cursor and trace alone. *)
Theorem attachAsync_unmatched
  (RECURSION : option Z) (fuel : nat) (d : ContextPrivate) :
  asyncDetached d = 0 ->
  attachAsync RECURSION fuel d = Some (set_asyncDetached (-1) d)
  /\ attachAsync RECURSION fuel (Context_detachAsync (set_asyncDetached (-1) d))
     = Some (set_status (Z.lor (status d) Async) (set_asyncDetached (-1) d)).
Proof.
  intros Hzero. split.
  - unfold attachAsync, Context_attachAsync. rewrite Hzero. reflexivity.
  - unfold attachAsync, Context_attachAsync, Context_detachAsync. reflexivity.
Qed.

(* ================================================================= *)
(** ** finalize *)

Lemma Context_finalize_first (d : ContextPrivate) :
  has_flag (status d) Finalized = false ->
  has_flag (status (Context_finalize d)) Finalized = true /\
  finalizations (trace (Context_finalize d)) = S (finalizations (trace d)).
Proof.
  intros Hfresh. unfold Context_finalize. rewrite Hfresh.
  unfold EngineRequest_finalize. split.
  - cbn [status set_status]. now apply has_flag_lor_same.
  - destruct (stats d); cbn [trace set_status set_stats emit set_trace];
      rewrite ?finalizations_app; simpl; lia.
Qed.

(** C5.  The first [finalize] of a context hands the response to the
    transport once and leaves the context finalized; every later call
    only logs a warning: the context is otherwise the same, and the
    response has still been handed over once. *)
Theorem finalize_once (d : ContextPrivate) (n : nat) :
  has_flag (status d) Finalized = false ->
  let d1 := Context_finalize d in
  let warning :=
    Log CUTELYST_CORE QtWarningMsg
        "Trying to finalize a finalized request! Skipping..." in
  has_flag (status d1) Finalized = true
  /\ finalizations (trace d1) = S (finalizations (trace d))
  /\ Context_finalize d1 = set_trace (trace d1 ++ [warning]) d1
  /\ Nat.iter n Context_finalize d1 = set_trace (trace d1 ++ repeat warning n) d1
  /\ finalizations (trace (Nat.iter n Context_finalize d1)) = S (finalizations (trace d)).
Proof.
  intros Hfresh d1 warning.
  destruct (Context_finalize_first d Hfresh) as [Hdone Hcount].
  fold d1 in Hdone, Hcount.
  assert (Hiter : Nat.iter n Context_finalize d1
                  = set_trace (trace d1 ++ repeat warning n) d1).
  { induction n as [| n IH].
    - simpl. rewrite app_nil_r. now destruct d1.
    - rewrite Nat.iter_succ, IH.
      unfold Context_finalize at 1. cbn [status set_trace].
      rewrite Hdone. unfold emit. cbn [trace set_trace].
      rewrite <- app_assoc.
      rewrite <- repeat_cons. reflexivity. }
  repeat split; try assumption.
  - unfold Context_finalize at 1. now rewrite Hdone.
  - rewrite Hiter. cbn [trace set_trace]. rewrite finalizations_app, Hcount.
    unfold warning. rewrite finalizations_repeat_log. lia.
Qed.

(* ================================================================= *)
(** ** How execute runs a component *)

Lemma ContextPrivate_eta (d : ContextPrivate) :
  mkContextPrivate (error d) (state d) (stack d) (detached d) (asyncDetached d)
    (asyncAction d) (pendingAsync d) (stats d) (status d) (trace d) = d.
Proof. now destruct d. Qed.

Lemma statsStartExecute_trace (c : Component) (d : ContextPrivate) :
  exists ps : list Event,
    Forall is_profile ps /\
    snd (statsStartExecute c d) = set_trace (trace d ++ ps) d.
Proof.
  unfold statsStartExecute.
  destruct (QString_startsWith "_" (name c)).
  - exists []. split; [constructor |].
    cbn [snd]. rewrite app_nil_r. unfold set_trace. now rewrite ContextPrivate_eta.
  - eexists [ProfileStart _]. split; [| reflexivity].
    constructor; [exact I | constructor].
Qed.

(** Either the guard fires, or the body of the component runs between
    [enter] and [leave]. *)
Lemma Context_execute_inv
  (RECURSION : option Z)
  (invoke : Script -> ContextPrivate -> option (bool * ContextPrivate))
  (c : Component) (d : ContextPrivate) (r : bool) (d' : ContextPrivate) :
  Context_execute RECURSION invoke c d = Some (r, d') ->
  (recursion_limit RECURSION <= size (stack d) /\ r = false /\
   d' = Context_setState false (Context_error (deep_recursion_msg c d) d))
  \/
  (size (stack d) < recursion_limit RECURSION /\
   exists (ps pe : list Event) (d2 : ContextPrivate),
     Forall is_profile ps /\ Forall is_profile pe /\
     invoke (body c) (enter c (ps ++ [Invoke (S (List.length (stack d))) c]) d)
       = Some (r, d2) /\
     d' = leave (Returned (S (List.length (stack d))) c r :: pe) d2).
Proof.
  unfold Context_execute. intros H.
  destruct (Z.geb_spec (size (stack d)) (recursion_limit RECURSION)) as [Hge | Hlt].
  - left. injection H as <- <-. repeat split; lia.
  - right. split; [lia |].
    assert (Hdepth : forall tr,
               List.length (stack (set_trace tr (push c d)))
               = S (List.length (stack d))).
    { intros tr. cbn [push stack set_stack set_trace].
      rewrite length_app. simpl. lia. }
    assert (Henter : forall ps,
               emit (Invoke (S (List.length (stack d))) c)
                    (set_trace (trace (push c d) ++ ps) (push c d))
               = enter c (ps ++ [Invoke (S (List.length (stack d))) c]) d).
    { intros ps. unfold enter, emit, push. cbn. now rewrite <- app_assoc. }
    destruct (stats (push c d)) eqn:Hstats.
    + destruct (statsStartExecute_trace c (push c d)) as (ps & Hps & Hd1).
      destruct (statsStartExecute c (push c d)) as [statsInfo d1].
      cbn [snd] in Hd1. subst d1.
      unfold Component_execute in H.
      rewrite Hdepth, Henter in H.
      destruct (invoke (body c) _) as [[ret d2] |] eqn:Hbody; [| discriminate].
      injection H as <- <-.
      match goal with
      | |- context [if ?b then _ else _] => destruct b
      end.
      * exists ps, [ProfileEnd statsInfo], d2.
        repeat split; try assumption.
        -- constructor; [exact I | constructor].
        -- unfold leave, pop, statsFinishExecute, emit. cbn.
           now rewrite <- app_assoc.
      * exists ps, [], d2.
        repeat split; try assumption. constructor.
    + unfold Component_execute in H.
      specialize (Hdepth (trace (push c d))). specialize (Henter []).
      rewrite app_nil_r in Henter.
      replace (set_trace (trace (push c d)) (push c d)) with (push c d)
        in Hdepth, Henter by (unfold set_trace; now rewrite ContextPrivate_eta).
      rewrite Hdepth, Henter in H.
      destruct (invoke (body c) _) as [[ret d2] |] eqn:Hbody; [| discriminate].
      injection H as <- <-.
      exists [], [], d2. repeat split; try assumption; constructor.
Qed.

(* ================================================================= *)
(** ** A rule for every run *)

Lemma pendingAsync_Context_error (msg : string) (d : ContextPrivate) :
  pendingAsync (Context_error msg d) = pendingAsync d.
Proof. unfold Context_error. now destruct (QString_isEmpty msg). Qed.

Lemma pendingAsync_Context_finalize (d : ContextPrivate) :
  pendingAsync (Context_finalize d) = pendingAsync d.
Proof.
  unfold Context_finalize.
  destruct (has_flag (status d) Finalized); [reflexivity |].
  now destruct (stats d).
Qed.

Lemma pendingAsync_attachAsync_done (d : ContextPrivate) :
  pendingAsync (attachAsync_done d) = pendingAsync d.
Proof.
  unfold attachAsync_done.
  destruct (has_flag (status d) Async); [| reflexivity].
  now rewrite pendingAsync_Context_finalize.
Qed.

Lemma QVector_at_In {A : Type} (l : list A) (i : Z) (x : A) :
  QVector_at l i = Some x -> In x l.
Proof.
  unfold QVector_at. destruct (i <? 0); [discriminate |].
  apply nth_error_In.
Qed.

Lemma call_all_calls_head (p : Call -> bool) (call : Call) :
  call_all_calls p call = true -> p call = true.
Proof.
  destruct call; simpl; intros H; apply andb_true_iff in H; tauto.
Qed.

Lemma component_all_calls_body (p : Call -> bool) (c : Component) :
  component_all_calls p c = all_calls p (body c).
Proof. now destruct c. Qed.

Section RunRule.

Variable RECURSION : option Z.
Variable P : Call -> bool.
Variable Inv : ContextPrivate -> ContextPrivate -> Prop.
Hypothesis rules : CallRule RECURSION P Inv.

Let Inv_trans := rule_trans _ _ _ rules.
Let Inv_attach := rule_attach _ _ _ rules.

Section WithInvoke.

Variable invoke : Script -> ContextPrivate -> option (bool * ContextPrivate).
Hypothesis invoke_keeps : keeps P Inv invoke.

Lemma Context_execute_keeps (c : Component) (d : ContextPrivate)
  (r : bool) (d' : ContextPrivate) :
  Context_execute RECURSION invoke c d = Some (r, d') ->
  component_all_calls P c = true -> queue_ok P d ->
  Inv d d' /\ pendingAsync d' = pendingAsync d.
Proof.
  intros Hrun Hc Hq.
  apply Context_execute_inv in Hrun.
  destruct Hrun as [(Hge & -> & ->) | (Hlt & ps & pe & d2 & Hps & Hpe & Hbody & ->)].
  - split; [now apply (rule_guard _ _ _ rules) |].
    unfold Context_setState. cbn [pendingAsync set_state].
    apply pendingAsync_Context_error.
  - rewrite component_all_calls_body in Hc.
    destruct (invoke_keeps _ _ _ _ Hbody Hc Hq) as [HInv Hpend]. split.
    + now apply (rule_bracket _ _ _ rules c d d2 r ps pe).
    + exact Hpend.
Qed.

Lemma attachAsync_loop_keeps (n : nat) :
  P CallAttachAsync = true ->
  forall d d',
    attachAsync_loop RECURSION invoke n d = Some d' ->
    queue_ok P d ->
    Inv d d' /\ pendingAsync d' = pendingAsync d.
Proof.
  intros Hattach.
  assert (Hdone : forall d,
             Inv d (attachAsync_done d) /\
             pendingAsync (attachAsync_done d) = pendingAsync d).
  { intros d. split; [apply Inv_attach, Hattach |].
    apply pendingAsync_attachAsync_done. }
  induction n as [| n IH]; intros d d' Hrun Hq; cbn [attachAsync_loop] in Hrun;
    destruct (asyncAction d <? size (pendingAsync d));
    try discriminate;
    try (injection Hrun as <-; now apply Hdone).
  destruct (QVector_at (pendingAsync d) (asyncAction d)) as [action |] eqn:Hat;
    [| discriminate].
  assert (Haction : component_all_calls P action = true).
  { apply QVector_at_In in Hat.
    specialize (Hq Hattach). rewrite forallb_forall in Hq. now apply Hq. }
  set (d1 := set_asyncAction (asyncAction d + 1) d) in *.
  assert (H01 : Inv d d1) by apply Inv_attach, Hattach.
  destruct (Context_execute RECURSION invoke action d1) as [[r d2] |] eqn:Hexec;
    [| discriminate].
  destruct (Context_execute_keeps _ _ _ _ Hexec Haction Hq) as [H12 Hpend].
  change (pendingAsync d1) with (pendingAsync d) in Hpend.
  destruct r.
  - destruct (negb (asyncDetached d2 =? 0)).
    + injection Hrun as <-. split; [eauto | exact Hpend].
    + assert (Hq2 : queue_ok P d2) by (unfold queue_ok; now rewrite Hpend).
      destruct (IH _ _ Hrun Hq2) as [H23 Hpend'].
      split; [eauto | congruence].
  - injection Hrun as <-.
    destruct (Hdone d2) as [H23 Hpend']. split; [eauto | congruence].
Qed.

Lemma Context_attachAsync_keeps (n : nat) (d d' : ContextPrivate) :
  P CallAttachAsync = true ->
  Context_attachAsync RECURSION invoke n d = Some d' ->
  queue_ok P d ->
  Inv d d' /\ pendingAsync d' = pendingAsync d.
Proof.
  intros Hattach Hrun Hq. unfold Context_attachAsync in Hrun.
  set (d1 := set_asyncDetached (int32 (asyncDetached d - 1)) d) in *.
  assert (H01 : Inv d d1) by apply Inv_attach, Hattach.
  destruct (negb (asyncDetached d1 =? 0)).
  - injection Hrun as <-. split; [exact H01 | reflexivity].
  - destruct (has_flag (status d1) Finalized).
    + injection Hrun as <-. split; [| reflexivity].
      eapply Inv_trans; [exact H01 |]. apply Inv_attach, Hattach.
    + destruct (attachAsync_loop_keeps n Hattach _ _ Hrun Hq) as [H12 Hpend].
      split; [eauto | exact Hpend].
Qed.

Lemma perform_keeps (n : nat) (call : Call) (d : ContextPrivate)
  (r : bool) (d' : ContextPrivate) :
  perform RECURSION invoke n call d = Some (r, d') ->
  call_all_calls P call = true -> queue_ok P d ->
  Inv d d' /\ pendingAsync d' = pendingAsync d.
Proof.
  intros Hrun Hcall Hq.
  pose proof (call_all_calls_head _ _ Hcall) as Hhead.
  destruct call as [msg | b | [a |] | | | a | a | | | |];
    cbn [perform] in Hrun.
  - injection Hrun as _ <-. split; [now apply (rule_error _ _ _ rules) |].
    apply pendingAsync_Context_error.
  - injection Hrun as _ <-. split; [now apply (rule_setState _ _ _ rules) | reflexivity].
  - unfold Context_detach, Dispatcher_forward in Hrun.
    destruct (Context_execute RECURSION invoke a d) as [[r0 d0] |] eqn:Hexec;
      [| discriminate].
    injection Hrun as _ <-.
    apply (Context_execute_keeps _ _ _ _ Hexec); [| exact Hq].
    simpl in Hcall. apply andb_true_iff in Hcall. tauto.
  - injection Hrun as _ <-. split; [now apply (rule_detach _ _ _ rules) | reflexivity].
  - injection Hrun as _ <-. split; [now apply (rule_detachAsync _ _ _ rules) | reflexivity].
  - destruct (Context_attachAsync RECURSION invoke n d) as [d0 |] eqn:Hatt;
      [| discriminate].
    injection Hrun as _ <-.
    exact (Context_attachAsync_keeps _ _ _ Hhead Hatt Hq).
  - unfold Context_forward, Dispatcher_forward in Hrun.
    apply (Context_execute_keeps _ _ _ _ Hrun); [| exact Hq].
    simpl in Hcall. apply andb_true_iff in Hcall. tauto.
  - apply (Context_execute_keeps _ _ _ _ Hrun); [| exact Hq].
    simpl in Hcall. apply andb_true_iff in Hcall. tauto.
  - injection Hrun as _ <-. split; [now apply (rule_finalize _ _ _ rules) |].
    apply pendingAsync_Context_finalize.
  - injection Hrun as _ <-. split; [apply (rule_refl _ _ _ rules) | reflexivity].
  - injection Hrun as _ <-. split; [apply (rule_refl _ _ _ rules) | reflexivity].
  - injection Hrun as _ <-. split; [apply (rule_refl _ _ _ rules) | reflexivity].
Qed.

End WithInvoke.

(** Every run keeps the relation. *)
Lemma run_keeps (fuel : nat) : keeps P Inv (run RECURSION fuel).
Proof.
  induction fuel as [| fuel IH]; intros s d r d' Hrun Hs Hq;
    [discriminate |].
  cbn [run] in Hrun. destruct s as [ret | call k].
  - injection Hrun as _ <-. split; [apply (rule_refl _ _ _ rules) | reflexivity].
  - cbn [all_calls] in Hs.
    apply andb_true_iff in Hs. destruct Hs as [Hs Hk0].
    apply andb_true_iff in Hs. destruct Hs as [Hcall Hk1].
    destruct (perform RECURSION (run RECURSION fuel) fuel call d)
      as [[r1 d1] |] eqn:Hperf; [| discriminate].
    destruct (perform_keeps _ IH _ _ _ _ _ Hperf Hcall Hq) as [H01 Hpend].
    assert (Hk : all_calls P (k r1) = true) by now destruct r1.
    assert (Hq1 : queue_ok P d1) by (unfold queue_ok; now rewrite Hpend).
    destruct (IH _ _ _ _ Hrun Hk Hq1) as [H12 Hpend'].
    split; [eauto | congruence].
Qed.

End RunRule.

(* ================================================================= *)
(** ** Stack, queue and cursor across a run *)

Lemma script_size_pos (s : Script) : (1 <= script_size s)%nat.
Proof. destruct s; simpl; lia. Qed.

(** Every script is bound to the test that allows every call; by
    induction on a bound of the sizes. *)
Lemma all_calls_any_sized (n : nat) :
  (forall s, (script_size s <= n)%nat -> all_calls (fun _ => true) s = true)
  /\ (forall c, (component_size c <= n)%nat ->
                component_all_calls (fun _ => true) c = true).
Proof.
  induction n as [| n [IHs IHc]].
  - split.
    + intros s Hs. pose proof (script_size_pos s). lia.
    + intros [nm rv ia nc b] Hc. cbn [component_size] in Hc. lia.
  - split.
    + intros [ret | call k] Hs; [reflexivity |].
      cbn [script_size] in Hs. cbn [all_calls].
      rewrite !IHs by lia. rewrite !andb_true_r.
      destruct call as [msg | b | [a |] | | | a | a | | | |];
        cbn [call_all_calls call_size andb] in *; try reflexivity;
        apply IHc; lia.
    + intros [nm rv ia nc b] Hc. cbn [component_size] in Hc.
      cbn [component_all_calls]. apply IHs. lia.
Qed.

Lemma all_calls_any (s : Script) : all_calls (fun _ => true) s = true.
Proof. apply (proj1 (all_calls_any_sized (script_size s))). lia. Qed.

Lemma component_all_calls_any (c : Component) :
  component_all_calls (fun _ => true) c = true.
Proof. apply (proj2 (all_calls_any_sized (component_size c))). lia. Qed.

Lemma call_all_calls_any (call : Call) :
  call_all_calls (fun _ => true) call = true.
Proof.
  destruct call as [msg | b | [a |] | | | a | a | | | |];
    cbn [call_all_calls andb]; try reflexivity;
    apply component_all_calls_any.
Qed.

Lemma frame_refl (d : ContextPrivate) : frame d d.
Proof. unfold frame. split; [reflexivity | lia]. Qed.

Lemma frame_trans (d1 d2 d3 : ContextPrivate) :
  frame d1 d2 -> frame d2 d3 -> frame d1 d3.
Proof. unfold frame. intros [-> ?] [-> ?]. split; [reflexivity | lia]. Qed.

Lemma frame_bracket (c : Component) (d d2 : ContextPrivate) (pre post : list Event) :
  frame (enter c pre d) d2 -> frame d (leave post d2).
Proof.
  unfold frame, enter, leave.
  cbn [stack asyncAction set_trace set_stack].
  intros [-> H]. now rewrite removelast_last.
Qed.

Lemma frame_rule (RECURSION : option Z) :
  CallRule RECURSION (fun _ => true) frame.
Proof.
  constructor.
  - exact frame_refl.
  - exact frame_trans.
  - intros msg d _. unfold frame. unfold_methods; split; (reflexivity || lia).
  - intros b d _. unfold frame. unfold_methods; split; (reflexivity || lia).
  - intros d _. unfold frame. cbn. split; (reflexivity || lia).
  - intros d _. unfold frame. unfold_methods; split; (reflexivity || lia).
  - intros d _. unfold frame. unfold_methods; split; (reflexivity || lia).
  - intros c d _. unfold frame. unfold_methods; split; (reflexivity || lia).
  - intros c d d2 r ps pe _ _. apply frame_bracket.
  - intros _ d. unfold frame.
    repeat split; intros; unfold_methods; (reflexivity || lia).
Qed.

Lemma queue_ok_any (d : ContextPrivate) : queue_ok (fun _ => true) d.
Proof.
  intros _. apply forallb_forall. intros c _. apply component_all_calls_any.
Qed.

(** No run changes the stack or the queue, or moves the cursor back. *)
Lemma run_frame (RECURSION : option Z) (fuel : nat) (s : Script)
  (d : ContextPrivate) (r : bool) (d' : ContextPrivate) :
  run RECURSION fuel s d = Some (r, d') ->
  frame d d' /\ pendingAsync d' = pendingAsync d.
Proof.
  intros Hrun.
  exact (run_keeps _ _ _ (frame_rule RECURSION) fuel s d r d' Hrun
           (all_calls_any s) (queue_ok_any d)).
Qed.

Lemma perform_frame (RECURSION : option Z) (fuel n : nat) (call : Call)
  (d : ContextPrivate) (r : bool) (d' : ContextPrivate) :
  perform RECURSION (run RECURSION fuel) n call d = Some (r, d') ->
  frame d d' /\ pendingAsync d' = pendingAsync d.
Proof.
  intros Hrun.
  exact (perform_keeps _ _ _ (frame_rule RECURSION) _
           (run_keeps _ _ _ (frame_rule RECURSION) fuel) n call d r d' Hrun
           (call_all_calls_any call) (queue_ok_any d)).
Qed.

Lemma execute_frame (RECURSION : option Z) (fuel : nat) (c : Component)
  (d : ContextPrivate) (r : bool) (d' : ContextPrivate) :
  execute RECURSION fuel c d = Some (r, d') ->
  frame d d' /\ pendingAsync d' = pendingAsync d.
Proof.
  intros Hrun.
  exact (Context_execute_keeps _ _ _ (frame_rule RECURSION) _
           (run_keeps _ _ _ (frame_rule RECURSION) fuel) c d r d' Hrun
           (component_all_calls_any c) (queue_ok_any d)).
Qed.

(* ================================================================= *)
(** ** Enough fuel gives a result *)

Lemma skipn_nth_error {A : Type} (l : list A) (n : nat) (a : A) :
  nth_error l n = Some a -> skipn n l = a :: skipn (S n) l.
Proof.
  revert n. induction l as [| x l IH]; intros [| n] H; try discriminate.
  - injection H as ->. reflexivity.
  - apply IH in H. exact H.
Qed.

(** Below the end of the queue the cursor points at the first of the
    remaining entries. *)
Lemma remaining_step (d : ContextPrivate) :
  0 <= asyncAction d ->
  (asyncAction d <? size (pendingAsync d)) = true ->
  exists a,
    QVector_at (pendingAsync d) (asyncAction d) = Some a /\
    remaining d = a :: remaining (set_asyncAction (asyncAction d + 1) d).
Proof.
  intros Hpos Hlt. apply Z.ltb_lt in Hlt. unfold size in Hlt.
  unfold QVector_at, remaining. cbn [asyncAction pendingAsync set_asyncAction].
  destruct (Z.ltb_spec (asyncAction d) 0) as [? | _]; [lia |].
  destruct (nth_error (pendingAsync d) (Z.to_nat (asyncAction d))) as [a |] eqn:Hnth.
  - exists a. split; [reflexivity |].
    rewrite Z2Nat.inj_add by lia. rewrite Nat.add_1_r.
    now apply skipn_nth_error.
  - apply nth_error_None in Hnth. lia.
Qed.

(** At or beyond the end of the queue nothing remains. *)
Lemma remaining_end (d : ContextPrivate) :
  0 <= asyncAction d ->
  (asyncAction d <? size (pendingAsync d)) = false ->
  remaining d = [].
Proof.
  intros Hpos Hge. apply Z.ltb_ge in Hge. unfold size in Hge.
  unfold remaining. apply skipn_all2. lia.
Qed.

Lemma list_sum_skipn_le (l : list nat) (n m : nat) :
  (n <= m)%nat -> (list_sum (skipn m l) <= list_sum (skipn n l))%nat.
Proof.
  revert n m. induction l as [| x l IH]; intros n m Hle.
  - rewrite !skipn_nil. lia.
  - destruct n as [| n], m as [| m]; try lia.
    + cbn [skipn]. specialize (IH O m (Nat.le_0_l m)).
      rewrite skipn_O in IH. simpl. lia.
    + cbn [skipn]. apply IH. lia.
Qed.

(** A cursor further on leaves less to run. *)
Lemma pending_size_le (d d' : ContextPrivate) :
  pendingAsync d' = pendingAsync d ->
  0 <= asyncAction d <= asyncAction d' ->
  (pending_size d' <= pending_size d)%nat.
Proof.
  intros Hq Hc. unfold pending_size, remaining.
  rewrite Hq, <- !skipn_map.
  apply list_sum_skipn_le. lia.
Qed.

Section Total.

Variable RECURSION : option Z.
Variable fuel : nat.

(** [run] with this much fuel gives a result wherever the fuel is
    enough. *)
Hypothesis run_gives :
  forall s d,
    0 <= asyncAction d -> (enough_fuel s d <= fuel)%nat ->
    exists r d', run RECURSION fuel s d = Some (r, d').

Lemma execute_gives (c : Component) (d : ContextPrivate) :
  0 <= asyncAction d ->
  (script_size (body c) + pending_size d <= fuel)%nat ->
  exists r d', execute RECURSION fuel c d = Some (r, d').
Proof.
  intros Hpos Hfuel. unfold execute, Context_execute.
  destruct (size (stack d) >=? recursion_limit RECURSION); [eauto |].
  assert (Hbody : forall tr,
             exists r d',
               Component_execute (run RECURSION fuel) c
                 (set_trace tr (push c d)) = Some (r, d')).
  { intros tr. unfold Component_execute.
    destruct (run_gives (body c)
                (emit (Invoke (List.length (stack (set_trace tr (push c d)))) c)
                      (set_trace tr (push c d))))
      as (r & d' & ->); [exact Hpos | exact Hfuel | eauto]. }
  destruct (stats (push c d)).
  - destruct (statsStartExecute_trace c (push c d)) as (ps & _ & Hd1).
    destruct (statsStartExecute c (push c d)) as [statsInfo d1].
    cbn [snd] in Hd1. subst d1.
    destruct (Hbody (trace (push c d) ++ ps)) as (r & d' & ->). eauto.
  - destruct (Hbody (trace (push c d))) as (r & d' & H).
    replace (set_trace (trace (push c d)) (push c d)) with (push c d) in H
      by (unfold set_trace; now rewrite ContextPrivate_eta).
    rewrite H. eauto.
Qed.

Lemma attachAsync_loop_gives (n : nat) :
  forall d,
    0 <= asyncAction d ->
    (pending_size d <= fuel)%nat -> (pending_size d <= n)%nat ->
    exists d', attachAsync_loop RECURSION (run RECURSION fuel) n d = Some d'.
Proof.
  induction n as [| n IH]; intros d Hpos Hfuel Hn; cbn [attachAsync_loop];
    destruct (asyncAction d <? size (pendingAsync d)) eqn:Hlt; eauto;
    destruct (remaining_step d Hpos Hlt) as (a & Hat & Hrem);
    assert (Hsize : pending_size d
                    = (component_size a
                       + pending_size (set_asyncAction (asyncAction d + 1) d))%nat)
      by (unfold pending_size; now rewrite Hrem);
    destruct a as [nm rv ia nc b]; cbn [component_size] in Hsize;
    [lia |].
  rewrite Hat.
  set (a := mkComponent nm rv ia nc b) in *.
  set (d1 := set_asyncAction (asyncAction d + 1) d) in *.
  destruct (execute_gives a d1) as (r & d2 & Hexec).
  { unfold d1. cbn [asyncAction set_asyncAction]. lia. }
  { unfold a. cbn [body]. lia. }
  unfold execute in Hexec. rewrite Hexec.
  destruct r; [| eauto].
  destruct (negb (asyncDetached d2 =? 0)); [eauto |].
  apply execute_frame in Hexec. destruct Hexec as [[_ Hcur] Hq].
  assert (Hpos1 : 0 <= asyncAction d1)
    by (unfold d1; cbn [asyncAction set_asyncAction]; lia).
  pose proof (pending_size_le d1 d2 Hq (conj Hpos1 Hcur)) as Hle.
  apply IH; lia.
Qed.

Lemma perform_gives (call : Call) (d : ContextPrivate) :
  0 <= asyncAction d ->
  (call_size call + pending_size d <= fuel)%nat ->
  exists r d', perform RECURSION (run RECURSION fuel) fuel call d = Some (r, d').
Proof.
  intros Hpos Hfuel.
  destruct call as [msg | b | [a |] | | | a | a | | | |];
    cbn [perform Context_detach]; try (do 2 eexists; reflexivity).
  - unfold Dispatcher_forward.
    destruct (execute_gives a d Hpos) as (r & d' & H).
    { destruct a. cbn [call_size component_size body] in *. lia. }
    unfold execute in H. rewrite H. eauto.
  - unfold Context_attachAsync.
    destruct (negb (asyncDetached _ =? 0)); [eauto |].
    destruct (has_flag _ Finalized); [eauto |].
    destruct (attachAsync_loop_gives fuel
                (set_asyncDetached (int32 (asyncDetached d - 1)) d))
      as (d' & ->); [exact Hpos | | | eauto];
      change (pending_size (set_asyncDetached (int32 (asyncDetached d - 1)) d))
        with (pending_size d); lia.
  - unfold Context_forward, Dispatcher_forward.
    apply (execute_gives a d Hpos).
    destruct a. cbn [call_size component_size body] in *. lia.
  - apply (execute_gives a d Hpos).
    destruct a. cbn [call_size component_size body] in *. lia.
Qed.

End Total.

(** Every script runs to a result, given fuel by its size and the size
    of the pending actions. *)
Lemma run_gives (RECURSION : option Z) (fuel : nat) :
  forall s d,
    0 <= asyncAction d -> (enough_fuel s d <= fuel)%nat ->
    exists r d', run RECURSION fuel s d = Some (r, d').
Proof.
  induction fuel as [| fuel IH]; intros s d Hpos Hfuel.
  - pose proof (script_size_pos s). unfold enough_fuel in Hfuel. lia.
  - cbn [run]. destruct s as [ret | call k]; [eauto |].
    unfold enough_fuel in Hfuel. cbn [script_size] in Hfuel.
    destruct (perform_gives RECURSION fuel IH call d Hpos) as (r1 & d1 & Hperf);
      [lia |].
    rewrite Hperf.
    apply perform_frame in Hperf. destruct Hperf as [[_ Hcur] Hq].
    pose proof (pending_size_le d d1 Hq (conj Hpos Hcur)) as Hle.
    apply IH; [lia |].
    unfold enough_fuel. destruct r1; lia.
Qed.

(* ================================================================= *)
(** ** Errors *)

Lemma errors_kept_same (d d' : ContextPrivate) :
  error d' = error d -> errors_kept d d'.
Proof. intros H. exists []. now rewrite app_nil_r. Qed.

Lemma errors_kept_rule (RECURSION : option Z) :
  CallRule RECURSION no_clear errors_kept.
Proof.
  constructor.
  - intros d. now apply errors_kept_same.
  - intros d1 d2 d3 [m1 H1] [m2 H2]. exists (m1 ++ m2).
    now rewrite H2, H1, app_assoc.
  - intros msg d Hmsg. cbn [no_clear] in Hmsg. apply negb_true_iff in Hmsg.
    exists [msg]. unfold Context_error. now rewrite Hmsg.
  - intros b d _. now apply errors_kept_same.
  - intros d _. now apply errors_kept_same.
  - intros d _. now apply errors_kept_same.
  - intros d _. apply errors_kept_same. now unfold_methods.
  - intros c d _. exists [deep_recursion_msg c d]. reflexivity.
  - intros c d d2 r ps pe _ _ [m H]. exists m. exact H.
  - intros _ d. repeat split; intros; apply errors_kept_same; now unfold_methods.
Qed.

(** C7, as the code has it.  A message that is not empty is appended to
    the errors by [error], and [errors] gives the messages back in the
    order in which they were added; [error] with an empty message clears
    the list.  Every run of a script in which no call of [error] has an
    empty message -- in the script, in the components it runs and in
    the pending actions -- gives a result and keeps the errors it found,
    in their order, as the first of the errors it leaves. *)
Theorem errors_kept_in_order
  (RECURSION : option Z) (fuel : nat) (s : Script) (d : ContextPrivate) :
  0 <= asyncAction d ->
  (enough_fuel s d <= fuel)%nat ->
  all_calls no_clear s = true ->
  forallb (component_all_calls no_clear) (pendingAsync d) = true ->
  (exists r d' more,
     run RECURSION fuel s d = Some (r, d') /\
     Context_errors d' = Context_errors d ++ more)
  /\ (forall msg d0,
        QString_isEmpty msg = false ->
        Context_errors (Context_error msg d0) = Context_errors d0 ++ [msg])
  /\ (forall d0, Context_errors (Context_error EmptyString d0) = []).
Proof.
  intros Hpos Hfuel Hs Hq. split; [| split].
  - destruct (run_gives RECURSION fuel s d Hpos Hfuel) as (r & d' & Hrun).
    destruct (run_keeps _ _ _ (errors_kept_rule RECURSION) fuel s d r d' Hrun Hs)
      as [[more Hmore] _].
    + intros _. exact Hq.
    + exists r, d', more. now split.
  - intros msg d0 Hmsg. unfold Context_errors, Context_error. now rewrite Hmsg.
  - reflexivity.
Qed.

(* ================================================================= *)
(** ** detach *)

Lemma detached_kept_rule (RECURSION : option Z) :
  CallRule RECURSION no_plain_detach detached_kept.
Proof.
  constructor; unfold detached_kept.
  - reflexivity.
  - intros d1 d2 d3 H1 H2. congruence.
  - intros msg d _. now unfold_methods.
  - reflexivity.
  - intros d H. discriminate H.
  - reflexivity.
  - intros d _. now unfold_methods.
  - intros c d _. reflexivity.
  - intros c d d2 r ps pe _ _ H. exact H.
  - intros _ d. repeat split; intros; now unfold_methods.
Qed.

(** C8, as the code has it.  With an action, [detach] asks the resolver
    to forward to the action and does nothing else: it leaves the
    context as [forward] of the action leaves it, and the flag [detached]
    is as before unless a component that runs meanwhile calls [detach]
    without an action.  Without an action [detach] sets the flag. *)
Theorem detach_with_action
  (RECURSION : option Z) (fuel : nat) (a : Component) (d : ContextPrivate) :
  0 <= asyncAction d ->
  (script_size (body a) + pending_size d <= fuel)%nat ->
  (exists r d',
     forward RECURSION fuel a d = Some (r, d') /\
     detach RECURSION fuel (Some a) d = Some d' /\
     (component_all_calls no_plain_detach a = true ->
      forallb (component_all_calls no_plain_detach) (pendingAsync d) = true ->
      detached d' = detached d))
  /\ detach RECURSION fuel None d = Some (set_detached true d).
Proof.
  intros Hpos Hfuel. split; [| reflexivity].
  destruct (execute_gives RECURSION fuel (run_gives RECURSION fuel) a d Hpos Hfuel)
    as (r & d' & Hrun).
  exists r, d'. unfold forward, detach, Context_forward, Context_detach,
    Dispatcher_forward. unfold execute in Hrun. rewrite Hrun.
  repeat split.
  intros Ha Hq.
  apply (Context_execute_keeps _ _ _ (detached_kept_rule RECURSION) _
           (run_keeps _ _ _ (detached_kept_rule RECURSION) fuel) a d r d' Hrun Ha).
  intros _. exact Hq.
Qed.

(* ================================================================= *)
(** ** Resuming the pending actions *)

Lemma invoked_at_app (m : nat) (tr1 tr2 : list Event) :
  invoked_at m (tr1 ++ tr2) = invoked_at m tr1 ++ invoked_at m tr2.
Proof.
  induction tr1 as [| e tr1 IH]; [reflexivity |].
  destruct e; cbn [app invoked_at]; try exact IH.
  destruct (Nat.eqb depth m); [cbn [app]; now rewrite IH | exact IH].
Qed.

Lemma returned_at_app (m : nat) (tr1 tr2 : list Event) :
  returned_at m (tr1 ++ tr2) = returned_at m tr1 ++ returned_at m tr2.
Proof.
  induction tr1 as [| e tr1 IH]; [reflexivity |].
  destruct e; cbn [app returned_at]; try exact IH.
  destruct (Nat.eqb depth m); [cbn [app]; now rewrite IH | exact IH].
Qed.

Lemma profile_events (m : nat) (tr : list Event) :
  Forall is_profile tr ->
  invoked_at m tr = [] /\ returned_at m tr = [] /\ finalizations tr = O /\
  Forall (deeper m) tr.
Proof.
  induction 1 as [| e tr He _ IH]; [repeat split; constructor |].
  destruct IH as (H1 & H2 & H3 & H4).
  destruct e; try contradiction; cbn; repeat split; auto;
    constructor; auto; exact I.
Qed.

Lemma deeper_events (m n : nat) (tr : list Event) :
  (m <= n)%nat -> Forall (deeper n) tr ->
  invoked_at m tr = [] /\ returned_at m tr = [] /\ finalizations tr = O /\
  Forall (deeper m) tr.
Proof.
  intros Hle. induction 1 as [| e tr He _ IH]; [repeat split; constructor |].
  destruct IH as (H1 & H2 & H3 & H4).
  destruct e; cbn in He; try contradiction; cbn [invoked_at returned_at finalizations];
    try (destruct (Nat.eqb_spec depth m); [lia |]);
    repeat split; auto; constructor; auto; cbn; try exact I; lia.
Qed.

Lemma quiet_same (d d' : ContextPrivate) :
  stack d' = stack d -> asyncAction d' = asyncAction d ->
  status d' = status d -> trace d' = trace d ->
  quiet d d'.
Proof.
  intros Hs Hc Hst Ht. unfold quiet. rewrite Hs, Hc, Hst.
  repeat split; auto.
  exists []. rewrite app_nil_r. split; [exact Ht | constructor].
Qed.

Lemma quiet_log (d d' : ContextPrivate) (cat : Category) (sev : Severity)
  (text : string) :
  stack d' = stack d -> asyncAction d' = asyncAction d ->
  status d' = status d -> trace d' = trace d ++ [Log cat sev text] ->
  quiet d d'.
Proof.
  intros Hs Hc Hst Ht. unfold quiet. rewrite Hs, Hc, Hst.
  repeat split; auto.
  eexists. split; [exact Ht |]. constructor; [exact I | constructor].
Qed.

Lemma quiet_rule (RECURSION : option Z) :
  CallRule RECURSION no_attach_finalize quiet.
Proof.
  constructor.
  - intros d. now apply quiet_same.
  - intros d1 d2 d3 (Hs1 & Hc1 & Hf1 & Ha1 & tr1 & Ht1 & Hd1)
                    (Hs2 & Hc2 & Hf2 & Ha2 & tr2 & Ht2 & Hd2).
    unfold quiet. rewrite Hs2, Hs1, Hc2, Hc1, Hf2, Hf1.
    repeat split; auto.
    exists (tr1 ++ tr2). split; [now rewrite Ht2, Ht1, app_assoc |].
    apply Forall_app. split; [exact Hd1 |]. now rewrite Hs1 in Hd2.
  - intros msg d _. unfold Context_error.
    destruct (QString_isEmpty msg); [now apply quiet_same |].
    now apply quiet_log with (cat := CUTELYST_CORE) (sev := QtCriticalMsg) (text := msg).
  - intros b d _. now apply quiet_same.
  - intros d _. now apply quiet_same.
  - intros d _. unfold quiet, Context_detachAsync.
    cbn [stack asyncAction status trace set_status set_asyncDetached].
    repeat split.
    + now apply has_flag_lor_other.
    + intros _. now apply has_flag_lor_same.
    + exists []. rewrite app_nil_r. split; [reflexivity | constructor].
  - intros d H. discriminate H.
  - intros c d _.
    now apply quiet_log with (cat := CUTELYST_CORE) (sev := QtCriticalMsg)
                             (text := deep_recursion_msg c d).
  - intros c d d2 r ps pe Hps Hpe (Hs & Hc & Hf & Ha & tr & Ht & Hd).
    unfold enter in Hs, Hc, Hf, Ha, Ht, Hd.
    cbn [stack asyncAction status trace set_trace set_stack] in Hs, Hc, Hf, Ha, Ht, Hd.
    rewrite length_app, Nat.add_1_r in Hd.
    unfold quiet, leave.
    cbn [stack asyncAction status trace set_trace set_stack].
    rewrite Hs, removelast_last.
    repeat split; auto.
    exists ((ps ++ [Invoke (S (List.length (stack d))) c]) ++ tr
            ++ Returned (S (List.length (stack d))) c r :: pe).
    split; [now rewrite Ht, <- !app_assoc |].
    set (m := List.length (stack d)) in *.
    repeat (apply Forall_app; split).
    + now apply profile_events.
    + constructor; [cbn; lia | constructor].
    + apply (deeper_events m (S m)); [lia | exact Hd].
    + constructor; [cbn; lia | now apply profile_events].
  - intros H. discriminate H.
Qed.

(** One pending action, run by [execute] below the recursion limit: it
    is invoked once and returns once at the depth next to the stack, and
    leaves stack, cursor and queue alone. *)
Lemma execute_pending (RECURSION : option Z) (fuel : nat) (a : Component)
  (d : ContextPrivate) :
  0 <= asyncAction d ->
  size (stack d) < recursion_limit RECURSION ->
  component_all_calls no_attach_finalize a = true ->
  (script_size (body a) + pending_size d <= fuel)%nat ->
  exists r d' tr,
    execute RECURSION fuel a d = Some (r, d') /\
    stack d' = stack d /\
    asyncAction d' = asyncAction d /\
    pendingAsync d' = pendingAsync d /\
    has_flag (status d') Finalized = has_flag (status d) Finalized /\
    (has_flag (status d) Async = true -> has_flag (status d') Async = true) /\
    trace d' = trace d ++ tr /\
    invoked_at (S (List.length (stack d))) tr = [a] /\
    returned_at (S (List.length (stack d))) tr = [r] /\
    finalizations tr = O.
Proof.
  intros Hpos Hbelow Ha Hfuel.
  destruct (execute_gives RECURSION fuel (run_gives RECURSION fuel) a d Hpos Hfuel)
    as (r & d' & Hrun).
  exists r, d'. pose proof Hrun as Hinv.
  apply Context_execute_inv in Hinv.
  destruct Hinv as [(Hge & _) | (_ & ps & pe & d2 & Hps & Hpe & Hbody & ->)]; [lia |].
  rewrite component_all_calls_body in Ha.
  destruct (run_keeps _ _ _ (quiet_rule RECURSION) fuel _ _ _ _ Hbody Ha)
    as [(Hs & Hc & Hf & Hasync & tr & Ht & Hd) Hq].
  { intros H. discriminate H. }
  unfold enter in Hs, Hc, Hf, Hasync, Ht, Hd, Hq.
  cbn [stack asyncAction pendingAsync status trace set_trace set_stack]
    in Hs, Hc, Hf, Hasync, Ht, Hd, Hq.
  rewrite length_app, Nat.add_1_r in Hd.
  set (m := List.length (stack d)) in *.
  exists ((ps ++ [Invoke (S m) a]) ++ tr ++ Returned (S m) a r :: pe).
  split; [exact Hrun |].
  unfold leave. cbn [stack asyncAction pendingAsync status trace set_trace set_stack].
  rewrite Hs, removelast_last.
  destruct (profile_events (S m) ps Hps) as (Hps1 & Hps2 & Hps3 & _).
  destruct (profile_events (S m) pe Hpe) as (Hpe1 & Hpe2 & Hpe3 & _).
  destruct (deeper_events (S m) (S m) tr (Nat.le_refl _) Hd) as (Htr1 & Htr2 & Htr3 & _).
  repeat split; auto.
  - now rewrite Ht, <- !app_assoc.
  - rewrite !invoked_at_app, Hps1, Htr1. cbn [invoked_at app].
    now rewrite Nat.eqb_refl, Hpe1.
  - rewrite !returned_at_app, Hps2, Htr2. cbn [returned_at app].
    now rewrite Nat.eqb_refl, Hpe2.
  - rewrite !finalizations_app, Hps3, Htr3. cbn [finalizations]. now rewrite Hpe3.
Qed.

Lemma remaining_nil (d : ContextPrivate) :
  0 <= asyncAction d -> remaining d = [] ->
  (asyncAction d <? size (pendingAsync d)) = false.
Proof.
  intros Hpos Hrem.
  destruct (asyncAction d <? size (pendingAsync d)) eqn:Hlt; [| reflexivity].
  destruct (remaining_step d Hpos Hlt) as (a & _ & H). congruence.
Qed.

Lemma remaining_cons (d : ContextPrivate) (a : Component) (rem : list Component) :
  0 <= asyncAction d -> remaining d = a :: rem ->
  (asyncAction d <? size (pendingAsync d)) = true /\
  QVector_at (pendingAsync d) (asyncAction d) = Some a /\
  remaining (set_asyncAction (asyncAction d + 1) d) = rem.
Proof.
  intros Hpos Hrem.
  destruct (asyncAction d <? size (pendingAsync d)) eqn:Hlt.
  - destruct (remaining_step d Hpos Hlt) as (a' & Hat & H).
    rewrite Hrem in H. injection H as -> ->. auto.
  - rewrite (remaining_end d Hpos Hlt) in Hrem. discriminate.
Qed.

Lemma length_le_pending_size (d : ContextPrivate) :
  (List.length (remaining d) <= pending_size d)%nat.
Proof.
  unfold pending_size. induction (remaining d) as [| a l IH]; [reflexivity |].
  destruct a. simpl in *. lia.
Qed.

(** The loop of [attachAsync] over pending actions that neither resume
    nor finalize the request themselves. *)
Lemma attachAsync_loop_resumes (RECURSION : option Z) (fuel : nat) :
  forall (rem : list Component) (n : nat) (d : ContextPrivate),
    remaining d = rem ->
    0 <= asyncAction d ->
    size (stack d) < recursion_limit RECURSION ->
    has_flag (status d) Finalized = false ->
    has_flag (status d) Async = true ->
    forallb (component_all_calls no_attach_finalize) rem = true ->
    (pending_size d <= fuel)%nat ->
    (List.length rem <= n)%nat ->
    exists (k : nat) (d1 : ContextPrivate) (tr : list Event),
      trace d1 = trace d ++ tr /\
      invoked_at (S (List.length (stack d))) tr = firstn k rem /\
      finalizations tr = O /\
      asyncAction d1 = asyncAction d + Z.of_nat k /\
      pendingAsync d1 = pendingAsync d /\
      remaining d1 = skipn k rem /\
      stack d1 = stack d /\
      has_flag (status d1) Finalized = false /\
      has_flag (status d1) Async = true /\
      ((k = List.length rem /\
        returned_at (S (List.length (stack d))) tr = repeat true k /\
        attachAsync_loop RECURSION (run RECURSION fuel) n d
        = Some (attachAsync_done d1))
       \/
       (exists j, k = S j /\
        returned_at (S (List.length (stack d))) tr = repeat true j ++ [false] /\
        attachAsync_loop RECURSION (run RECURSION fuel) n d
        = Some (attachAsync_done d1))
       \/
       ((0 < k)%nat /\
        returned_at (S (List.length (stack d))) tr = repeat true k /\
        asyncDetached d1 <> 0 /\
        attachAsync_loop RECURSION (run RECURSION fuel) n d = Some d1)).
Proof.
  induction rem as [| a rem IH]; intros n d Hrem Hpos Hbelow Hfin Hasync Hall Hfuel Hn.
  - exists O, d, []. rewrite app_nil_r, Z.add_0_r.
    repeat split; auto. left. repeat split.
    destruct n; cbn [attachAsync_loop]; now rewrite (remaining_nil d Hpos Hrem).
  - destruct n as [| n]; [cbn in Hn; lia |].
    destruct (remaining_cons d a rem Hpos Hrem) as (Hlt & Hat & Hrem1).
    cbn [forallb] in Hall. apply andb_true_iff in Hall. destruct Hall as [Ha Hall].
    set (d0 := set_asyncAction (asyncAction d + 1) d) in *.
    assert (Hsize : pending_size d = (component_size a + pending_size d0)%nat)
      by (unfold pending_size; now rewrite Hrem, Hrem1).
    assert (Hpos0 : 0 <= asyncAction d0)
      by (unfold d0; cbn [asyncAction set_asyncAction]; lia).
    destruct (execute_pending RECURSION fuel a d0 Hpos0 Hbelow Ha)
      as (r & d2 & tr & Hexec & Hs & Hc & Hq & Hf & Has & Ht & Hinv & Hret & Hfz).
    { destruct a. cbn [component_size body] in *. lia. }
    change (stack d0) with (stack d) in *.
    change (trace d0) with (trace d) in *.
    change (status d0) with (status d) in *.
    change (pendingAsync d0) with (pendingAsync d) in *.
    change (asyncAction d0) with (asyncAction d + 1) in *.
    assert (Hrem2 : remaining d2 = rem)
      by (rewrite <- Hrem1; unfold remaining; rewrite Hq, Hc; reflexivity).
    assert (Hloop : attachAsync_loop RECURSION (run RECURSION fuel) (S n) d
                    = if r then
                        if negb (asyncDetached d2 =? 0) then Some d2
                        else attachAsync_loop RECURSION (run RECURSION fuel) n d2
                      else Some (attachAsync_done d2)).
    { cbn [attachAsync_loop]. rewrite Hlt, Hat. fold d0.
      unfold execute in Hexec. rewrite Hexec. now destruct r. }
    rewrite Hfin in Hf. specialize (Has Hasync).
    destruct r.
    + destruct (Z.eqb_spec (asyncDetached d2) 0) as [Hzero | Hnz].
      * (* the action returned success and the request is not suspended *)
        destruct (IH n d2 Hrem2) as (k & d1 & tr' & Ht' & Hinv' & Hfz' & Hc' & Hq'
                                     & Hrem' & Hs' & Hf' & Has' & Hout);
          try assumption; try lia.
        { rewrite Hs. exact Hbelow. }
        { assert (Hle : (pending_size d2 <= pending_size d0)%nat)
            by (apply pending_size_le; [exact Hq | rewrite Hc; cbn; lia]).
          lia. }
        { cbn in Hn. lia. }
        rewrite Hs in *.
        exists (S k), d1, (tr ++ tr').
        rewrite invoked_at_app, returned_at_app, finalizations_app, Hinv, Hret, Hfz, Hinv', Hfz'.
        repeat split; auto.
        -- now rewrite Ht', Ht, app_assoc.
        -- rewrite Hc', Hc. lia.
        -- congruence.
        -- rewrite Hloop. cbn [negb].
           destruct Hout as [(Hk & Hret' & Hres) | [(j & Hk & Hret' & Hres) | (Hk & Hret' & Hnz' & Hres)]].
           ++ left. rewrite Hret'. cbn. repeat split; auto; congruence.
           ++ right. left. exists (S j). rewrite Hret'. cbn.
              repeat split; auto; congruence.
           ++ right. right. rewrite Hret'. cbn. repeat split; auto; lia.
      * (* the action returned success and suspended the request again *)
        exists 1%nat, d2, tr. cbn [firstn skipn].
        assert (Hres : attachAsync_loop RECURSION (run RECURSION fuel) (S n) d = Some d2).
        { rewrite Hloop.
          destruct (Z.eqb_spec (asyncDetached d2) 0); [contradiction | reflexivity]. }
        split; [exact Ht |]. split; [exact Hinv |]. split; [exact Hfz |].
        split; [rewrite Hc; lia |]. do 5 (split; [assumption |]).
        right. right. repeat split; auto.
    + (* the action returned failure *)
      exists 1%nat, d2, tr. cbn [firstn skipn].
      split; [exact Ht |]. split; [exact Hinv |]. split; [exact Hfz |].
      split; [rewrite Hc; lia |]. do 5 (split; [assumption |]).
      right. left. exists O. repeat split; auto.
Qed.

Lemma attachAsync_done_finalizes (d1 : ContextPrivate) :
  has_flag (status d1) Finalized = false ->
  has_flag (status d1) Async = true ->
  finalized_after d1 (attachAsync_done d1).
Proof.
  intros Hfin Hasync. unfold finalized_after, attachAsync_done. rewrite Hasync.
  destruct (Context_finalize_first (emit AfterDispatch d1) Hfin) as [H1 H2].
  repeat split; [exact H1 |].
  rewrite H2. unfold emit. cbn [trace set_trace].
  rewrite finalizations_app. simpl. lia.
Qed.

(** When the pending actions neither resume nor finalize the request
    themselves and the stack is below the recursion limit, the entries
    run are the first [k] of those that remained, nothing is finalized
    while the loop runs, and the response is finalized once after it,
    unless the request was suspended again. *)
Lemma attachAsync_resumes_quiet
  (RECURSION : option Z) (fuel : nat) (d : ContextPrivate) :
  asyncDetached d = 1 ->
  has_flag (status d) Finalized = false ->
  has_flag (status d) Async = true ->
  0 <= asyncAction d ->
  size (stack d) < recursion_limit RECURSION ->
  forallb (component_all_calls no_attach_finalize) (remaining d) = true ->
  (pending_size d <= fuel)%nat ->
  exists (k : nat) (d1 : ContextPrivate) (tr : list Event) (d' : ContextPrivate),
    attachAsync RECURSION fuel d = Some d' /\
    trace d1 = trace d ++ tr /\
    invoked_at (S (List.length (stack d))) tr = firstn k (remaining d) /\
    finalizations tr = O /\
    asyncAction d1 = asyncAction d + Z.of_nat k /\
    pendingAsync d1 = pendingAsync d /\
    remaining d1 = skipn k (remaining d) /\
    stack d1 = stack d /\
    has_flag (status d1) Finalized = false /\
    ((k = List.length (remaining d) /\
      returned_at (S (List.length (stack d))) tr = repeat true k /\
      finalized_after d1 d')
     \/
     (exists j, k = S j /\
      returned_at (S (List.length (stack d))) tr = repeat true j ++ [false] /\
      finalized_after d1 d')
     \/
     ((0 < k)%nat /\
      returned_at (S (List.length (stack d))) tr = repeat true k /\
      asyncDetached d1 <> 0 /\
      d' = d1)).
Proof.
  intros Hone Hfin Hasync Hpos Hbelow Hall Hfuel.
  set (d0 := set_asyncDetached 0 d).
  assert (Hstart : attachAsync RECURSION fuel d
                   = attachAsync_loop RECURSION (run RECURSION fuel) fuel d0).
  { unfold attachAsync, Context_attachAsync. rewrite Hone.
    change (int32 (1 - 1)) with 0.
    cbn [asyncDetached status set_asyncDetached Z.eqb negb]. now rewrite Hfin. }
  destruct (attachAsync_loop_resumes RECURSION fuel (remaining d) fuel d0)
    as (k & d1 & tr & Ht & Hinv & Hfz & Hc & Hq & Hrem & Hs & Hf & Has & Hout);
    try assumption; try reflexivity.
  { pose proof (length_le_pending_size d). lia. }
  change (stack d0) with (stack d) in *.
  change (trace d0) with (trace d) in *.
  change (asyncAction d0) with (asyncAction d) in *.
  change (pendingAsync d0) with (pendingAsync d) in *.
  pose proof (attachAsync_done_finalizes d1 Hf Has) as Hdone.
  rewrite <- Hstart in Hout.
  destruct Hout as [(Hk & Hret & Hres) | [(j & Hk & Hret & Hres) | (Hk & Hret & Hnz & Hres)]].
  - exists k, d1, tr, (attachAsync_done d1).
    do 9 (split; [assumption |]). left. auto.
  - exists k, d1, tr, (attachAsync_done d1).
    do 9 (split; [assumption |]). right. left. exists j. auto.
  - exists k, d1, tr, d1.
    do 9 (split; [assumption |]). right. right. auto.
Qed.

(* ================================================================= *)
(** ** URI builder *)

Lemma firstn_S_nth {A : Type} (l : list A) (n : nat) (x : A) :
  nth_error l n = Some x -> firstn (S n) l = firstn n l ++ [x].
Proof.
  revert n. induction l as [| y l IH]; intros [| n] H; try discriminate.
  - injection H as ->. reflexivity.
  - cbn [nth_error] in H. cbn [firstn app]. f_equal. now apply IH.
Qed.

(** The loop over [queryValues] appends the entries from the last to
    the first. *)
Lemma uriFor_query_rev (queryValues : ParamsMultiMap) :
  forall (it : nat) (query : QUrlQuery),
    (it <= List.length queryValues)%nat ->
    uriFor_query it queryValues query = query ++ rev (firstn it queryValues).
Proof.
  induction it as [| it IH]; intros query Hle.
  - cbn. now rewrite app_nil_r.
  - cbn [uriFor_query].
    destruct (nth_error queryValues it) as [[key value] |] eqn:Hnth.
    + rewrite IH by lia. unfold QUrlQuery_addQueryItem.
      rewrite (firstn_S_nth _ _ _ Hnth), rev_app_distr, <- app_assoc.
      reflexivity.
    + apply nth_error_None in Hnth. lia.
Qed.

(** C9, as the code has it.  For the path "/x", the arguments "a" and
    "b" and the entries q=1, r=2 the URI has the path /x/a/b and the
    query r=2&q=1.  In general the query lists the entries of the mapping
    from the last to the first: the loop walks the mapping backwards and
    every item is added at the end of the query.  A mapping without
    entries gives a URI without query, whatever the query of the request
    was.  The mapping keeps its entries sorted by key, so that q=1
    comes before r=2 in whichever order the two were inserted. *)
Theorem uriFor_query_order :
  (forall (requestUri : QUrl) (controllerNS : string),
      let uri :=
        Context_uriFor requestUri controllerNS "/x" ["a"; "b"]
          [("q", "1"); ("r", "2")] in
      url_path uri = "/x/a/b" /\ url_query uri = Some "r=2&q=1")
  /\ (forall requestUri controllerNS path args queryValues,
         url_query (Context_uriFor requestUri controllerNS path args queryValues)
         = match queryValues with
           | [] => None
           | _ :: _ => Some (QUrlQuery_toString (rev queryValues))
           end)
  /\ (forall requestUri controllerNS path args,
         url_query (Context_uriFor requestUri controllerNS path args []) = None)
  /\ ParamsMultiMap_insert "r" "2" (ParamsMultiMap_insert "q" "1" [])
     = [("q", "1"); ("r", "2")]
  /\ ParamsMultiMap_insert "q" "1" (ParamsMultiMap_insert "r" "2" [])
     = [("q", "1"); ("r", "2")].
Proof.
  split; [| split; [| split; [| split]]]; try reflexivity.
  { intros requestUri controllerNS uri. split; reflexivity. }
  intros requestUri controllerNS path args queryValues.
  unfold Context_uriFor, QUrl_setQuery. cbn [url_query].
  destruct queryValues as [| e queryValues]; [reflexivity |].
  rewrite uriFor_query_rev by lia. rewrite firstn_all. cbn [app].
  destruct (rev (e :: queryValues)) eqn:Hrev; [| reflexivity].
  apply (f_equal (@List.length _)) in Hrev. rewrite length_rev in Hrev. discriminate.
Qed.

(** The loop that takes captures from the arguments moves as many
    leading arguments as captures are missing, or all of them. *)
Lemma take_captures_spec (n : Z) :
  forall (args captures : list string),
    take_captures n captures args
    = (captures
         ++ firstn (Nat.min (Z.to_nat (n - size captures)) (List.length args)) args,
       skipn (Nat.min (Z.to_nat (n - size captures)) (List.length args)) args).
Proof.
  induction args as [| first rest IH]; intros captures.
  - rewrite Nat.min_0_r. cbn. now rewrite app_nil_r.
  - cbn [take_captures]. unfold size in *.
    destruct (Z.ltb_spec (Z.of_nat (List.length captures)) n) as [Hlt | Hge].
    + rewrite IH. rewrite length_app. cbn [List.length].
      replace (Z.to_nat (n - Z.of_nat (List.length captures)))
        with (S (Z.to_nat (n - Z.of_nat (List.length captures + 1)))) by lia.
      cbn [Nat.min firstn skipn]. now rewrite <- app_assoc.
    + replace (Z.to_nat (n - Z.of_nat (List.length captures))) with O by lia.
      cbn. now rewrite app_nil_r.
Qed.

(** C10.  In [uriFor] for an action whose expansion requires [n]
    captures: when [n] is positive, [k] leading arguments are moved to
    the end of the captures, as many as are missing or as there are, so
    that the captures then number [n] or no argument is left; the path is
    resolved with these captures and the arguments left over are
    appended to it by [uriFor] for a path.  When [n] is not positive the
    path is resolved without captures, and the captures followed by the
    arguments are appended.  With no captures and the arguments "10" and
    "extra", an action with one capture under /shop/item gives the path
    /shop/item/10/extra. *)
Theorem uriFor_action_captures
  (dispatcher : Dispatcher) (requestUri : QUrl) (controllerNS : string)
  (current : Component) (action : option Component) (expanded : Component)
  (captures args : list string) (queryValues : ParamsMultiMap) :
  expandAction dispatcher action = Some expanded ->
  let n := numberOfCaptures expanded in
  let k := Nat.min (Z.to_nat (n - size captures)) (List.length args) in
  let localAction := match action with Some a => a | None => current end in
  let resolved (localCaptures localArgs : list string) :=
    let path := uriForAction dispatcher localAction localCaptures in
    if QString_isEmpty path then
      Some ([Log CUTELYST_CORE QtWarningMsg "Can not find action for"], QUrl_empty)
    else
      Some ([], Context_uriFor requestUri controllerNS path localArgs queryValues) in
  (0 < n ->
   Context_uriFor_action dispatcher requestUri controllerNS current action
     captures args queryValues
   = resolved (captures ++ firstn k args) (skipn k args)
   /\ (size captures <= n ->
       size (captures ++ firstn k args) = n \/ skipn k args = []))
  /\ (n <= 0 ->
      Context_uriFor_action dispatcher requestUri controllerNS current action
        captures args queryValues
      = resolved [] (captures ++ args))
  /\ (Context_uriFor_action plain_dispatcher requestUri controllerNS current
        (Some act_item) [] ["10"; "extra"] queryValues
      = Some ([], Context_uriFor requestUri controllerNS "/shop/item/10"
                    ["extra"] queryValues)
      /\ url_path (Context_uriFor requestUri controllerNS "/shop/item/10"
                     ["extra"] queryValues) = "/shop/item/10/extra").
Proof.
  intros Hexp n k localAction resolved.
  unfold Context_uriFor_action. rewrite Hexp. fold n. unfold split_captures.
  split; [| split].
  - intros Hn. apply Z.ltb_lt in Hn. rewrite Hn.
    rewrite take_captures_spec. fold k. split; [reflexivity |].
    intros Hle. unfold size in *. rewrite length_app, length_firstn. fold k.
    destruct (Nat.le_gt_cases (List.length args) (Z.to_nat (n - Z.of_nat (List.length captures))))
      as [Hshort | Hlong].
    + right. apply skipn_all2. subst k. lia.
    + left. subst k. lia.
  - intros Hn. apply Z.ltb_ge in Hn. rewrite Hn. reflexivity.
  - split; reflexivity.
Qed.

(* ================================================================= *)
(** ** The theorems at sample inputs *)


Lemma attachAsync_outstanding_witness :
  1 < asyncDetached (set_asyncDetached 3 (fresh [act_ok])) <= INT_MAX
  /\ attachAsync None 0 (set_asyncDetached 3 (fresh [act_ok]))
     = Some (set_asyncDetached 2 (fresh [act_ok])).
Proof.
  assert (H : 1 < asyncDetached (set_asyncDetached 3 (fresh [act_ok])) <= INT_MAX)
    by (vm_compute; split; [reflexivity | discriminate]).
  split; [exact H |].
  exact (proj1 (attachAsync_outstanding None 0 _ H)).
Defined.

Lemma execute_at_recursion_limit_witness :
  size (stack (set_stack [act_nested; act_ok] (fresh []))) >= recursion_limit (Some 2)
  /\ exists d',
      execute (Some 2) 0 act_ok (set_stack [act_nested; act_ok] (fresh []))
      = Some (false, d')
      /\ error d' = ["Deep recursion detected (stack size 2) calling root/index, index"]
      /\ stack d' = [act_nested; act_ok].
Proof.
  assert (H : size (stack (set_stack [act_nested; act_ok] (fresh [])))
              >= recursion_limit (Some 2)) by (vm_compute; discriminate).
  split; [exact H |].
  destruct (execute_at_recursion_limit (Some 2) 0 act_ok _ H) as (_ & _ & Hrun).
  eexists. split; [exact Hrun |]. split; reflexivity.
Defined.

Lemma finalize_once_witness :
  has_flag (status (fresh [])) Finalized = false
  /\ finalizations (trace (Nat.iter 3 Context_finalize (Context_finalize (fresh []))))
     = 1%nat.
Proof.
  assert (H : has_flag (status (fresh [])) Finalized = false) by reflexivity.
  split; [exact H |].
  destruct (finalize_once (fresh []) 3 H) as (_ & _ & _ & _ & Hcount).
  exact Hcount.
Defined.

Lemma attachAsync_unmatched_witness :
  asyncDetached (fresh [act_ok]) = 0
  /\ attachAsync None 10 (fresh [act_ok])
     = Some (set_asyncDetached (-1) (fresh [act_ok])).
Proof.
  assert (H : asyncDetached (fresh [act_ok]) = 0) by reflexivity.
  split; [exact H |].
  exact (proj1 (attachAsync_unmatched None 10 _ H)).
Defined.

(** A stray [attachAsync] takes the count to -1 and is neither reported
    nor undone; the pair of [detachAsync] and [attachAsync] that follows
    does not run the pending action, which the same pair runs in a
    context without the stray call. *)
Lemma attachAsync_unmatched_goes_negative :
  exists d1 d2 d3,
    attachAsync None 10 (fresh [act_ok]) = Some d1
    /\ asyncDetached d1 = -1
    /\ trace d1 = []
    /\ error d1 = []
    /\ attachAsync None 10 (Context_detachAsync d1) = Some d2
    /\ asyncDetached d2 = -1
    /\ asyncAction d2 = 0
    /\ invoked_at 1 (trace d2) = []
    /\ attachAsync None 10 (Context_detachAsync (fresh [act_ok])) = Some d3
    /\ asyncAction d3 = 1
    /\ invoked_at 1 (trace d3) = [act_ok].
Proof.
  do 3 eexists.
  split; [vm_compute; reflexivity |]. do 3 (split; [reflexivity |]).
  split; [vm_compute; reflexivity |]. do 3 (split; [reflexivity |]).
  split; [vm_compute; reflexivity |]. split; reflexivity.
Qed.

Lemma errors_kept_in_order_witness :
  (0 <= asyncAction (Context_error "first" (fresh [act_fail]))
   /\ (enough_fuel (Bind (CallExecute act_fail) (fun _ => Ret true))
         (Context_error "first" (fresh [act_fail])) <= 10)%nat
   /\ all_calls no_clear (Bind (CallExecute act_fail) (fun _ => Ret true)) = true
   /\ forallb (component_all_calls no_clear)
        (pendingAsync (Context_error "first" (fresh [act_fail]))) = true)
  /\ exists r d' more,
      run None 10 (Bind (CallExecute act_fail) (fun _ => Ret true))
        (Context_error "first" (fresh [act_fail])) = Some (r, d')
      /\ Context_errors d' = ["first"] ++ more.
Proof.
  assert (H1 : 0 <= asyncAction (Context_error "first" (fresh [act_fail])))
    by (vm_compute; discriminate).
  assert (H2 : (enough_fuel (Bind (CallExecute act_fail) (fun _ => Ret true))
                  (Context_error "first" (fresh [act_fail])) <= 10)%nat)
    by (vm_compute; lia).
  assert (H3 : all_calls no_clear (Bind (CallExecute act_fail) (fun _ => Ret true))
               = true) by reflexivity.
  assert (H4 : forallb (component_all_calls no_clear)
                 (pendingAsync (Context_error "first" (fresh [act_fail]))) = true)
    by reflexivity.
  split; [repeat split; assumption |].
  destruct (errors_kept_in_order None 10 _ _ H1 H2 H3 H4)
    as ((r & d' & more & Hrun & Herr) & _).
  exists r, d', more. split; [exact Hrun | exact Herr].
Defined.

(** A message once added is gone after [error] with an empty message. *)
Lemma error_empty_drops_messages :
  Context_errors (Context_error "no such record" (fresh [])) = ["no such record"]
  /\ Context_errors
       (Context_error "" (Context_error "no such record" (fresh []))) = []
  /\ exists r d',
      run None 10 (Then (CallError "no such record") (Then (CallError "") (Ret true)))
        (fresh []) = Some (r, d')
      /\ Context_errors d' = [].
Proof.
  split; [reflexivity |]. split; [reflexivity |].
  do 2 eexists. split; [vm_compute; reflexivity | reflexivity].
Qed.

Lemma detach_with_action_witness :
  (0 <= asyncAction (fresh [])
   /\ (script_size (body act_ok) + pending_size (fresh []) <= 10)%nat
   /\ component_all_calls no_plain_detach act_ok = true
   /\ forallb (component_all_calls no_plain_detach) (pendingAsync (fresh [])) = true)
  /\ exists d',
      detach None 10 (Some act_ok) (fresh []) = Some d' /\
      detached d' = detached (fresh []).
Proof.
  assert (H1 : 0 <= asyncAction (fresh [])) by (vm_compute; discriminate).
  assert (H2 : (script_size (body act_ok) + pending_size (fresh []) <= 10)%nat)
    by (vm_compute; lia).
  assert (H3 : component_all_calls no_plain_detach act_ok = true) by reflexivity.
  assert (H4 : forallb (component_all_calls no_plain_detach)
                 (pendingAsync (fresh [])) = true) by reflexivity.
  split; [repeat split; assumption |].
  destruct (detach_with_action None 10 act_ok (fresh []) H1 H2)
    as ((r & d' & _ & Hdetach & Hflag) & _).
  exists d'. split; [exact Hdetach | exact (Hflag H3 H4)].
Defined.

(** [detach] with an action runs the action and leaves [detached]
    false; without an action it sets the flag. *)
Lemma detach_action_leaves_undetached :
  exists d',
    detach None 10 (Some act_ok) (fresh []) = Some d'
    /\ invoked_at 1 (trace d') = [act_ok]
    /\ detached d' = false
    /\ detach None 10 None (fresh []) = Some (set_detached true (fresh [])).
Proof.
  eexists. split; [vm_compute; reflexivity |].
  repeat split; reflexivity.
Qed.

(** The query of the URI for q=1, r=2 lists r first. *)
Lemma uriFor_query_reversed :
  url_query
    (Context_uriFor request_uri "shop" "/x" ["a"; "b"]
       (ParamsMultiMap_insert "r" "2" (ParamsMultiMap_insert "q" "1" [])))
  = Some "r=2&q=1"
  /\ url_query
       (Context_uriFor request_uri "shop" "/x" ["a"; "b"]
          (ParamsMultiMap_insert "r" "2" (ParamsMultiMap_insert "q" "1" [])))
     <> Some "q=1&r=2".
Proof.
  split; [reflexivity | discriminate].
Qed.

Lemma uriFor_action_captures_witness :
  (expandAction plain_dispatcher (Some act_item) = Some act_item
   /\ 0 < numberOfCaptures act_item)
  /\ Context_uriFor_action plain_dispatcher request_uri "shop" act_ok
       (Some act_item) [] ["10"; "extra"] []
     = Some ([], mkQUrl "http" "example.org" "/shop/item/10/extra" None).
Proof.
  assert (H1 : expandAction plain_dispatcher (Some act_item) = Some act_item)
    by reflexivity.
  assert (H2 : 0 < numberOfCaptures act_item) by reflexivity.
  split; [split; assumption |].
  destruct (uriFor_action_captures plain_dispatcher request_uri "shop" act_ok
              (Some act_item) act_item [] ["10"; "extra"] [] H1)
    as (Hpos & _ & _).
  destruct (Hpos H2) as [Hrun _].
  rewrite Hrun. reflexivity.
Defined.

(** A request whose second pending action suspends it again: the first
    [attachAsync] returns after the second action with nothing finalized,
    and the next [attachAsync] runs the third action and finalizes. *)
Example attachAsync_suspended_then_resumed :
  exists d1 d2,
    attachAsync None 10 (Context_detachAsync (fresh [act_ok; act_suspend; act_ok]))
    = Some d1
    /\ invoked_at 1 (trace d1) = [act_ok; act_suspend]
    /\ asyncAction d1 = 2
    /\ asyncDetached d1 = 1
    /\ has_flag (status d1) Finalized = false
    /\ attachAsync None 10 d1 = Some d2
    /\ invoked_at 1 (trace d2) = [act_ok; act_suspend; act_ok]
    /\ asyncAction d2 = 3
    /\ has_flag (status d2) Finalized = true
    /\ finalizations (trace d2) = 1%nat.
Proof.
  do 2 eexists.
  split; [vm_compute; reflexivity |]. do 4 (split; [reflexivity |]).
  split; [vm_compute; reflexivity |]. repeat split; reflexivity.
Qed.

(* ================================================================= *)
(** ** The stash *)

Lemma QHash_value_insert (h : QVariantHash) (key key' : string)
  (value defaultValue : QVariant) :
  QHash_value (QHash_insert key value h) key' defaultValue
  = if String.eqb key' key then value else QHash_value h key' defaultValue.
Proof.
  unfold QHash_value, QHash_insert.
  destruct (String.eqb_spec key' key) as [-> | Hne].
  - now rewrite stdpp.fin_maps.lookup_insert_eq.
  - rewrite stdpp.fin_maps.lookup_insert_ne by congruence. reflexivity.
Qed.

Lemma QHash_value_delete (h : QVariantHash) (key key' : string)
  (defaultValue : QVariant) :
  QHash_value (stdpp.base.delete key h) key' defaultValue
  = if String.eqb key' key then defaultValue else QHash_value h key' defaultValue.
Proof.
  unfold QHash_value.
  destruct (String.eqb_spec key' key) as [-> | Hne].
  - now rewrite stdpp.fin_maps.lookup_delete_eq.
  - rewrite stdpp.fin_maps.lookup_delete_ne by congruence. reflexivity.
Qed.

(** X1.  What is set in the stash is what is read from it: after
    [setStash(key, value)], [stash(key', defaultValue)] is [value] for
    the key set and what it was for any other key; a second [setStash] of
    a key replaces the first. *)
Theorem setStash_then_stash (key key' : string) (value value' defaultValue : QVariant)
  (stash : QVariantHash) :
  Context_stash_default key' defaultValue (Context_setStash key value stash)
  = (if String.eqb key' key then value
     else Context_stash_default key' defaultValue stash)
  /\ Context_stash_key key (Context_setStash key value stash) = value
  /\ Context_setStash key value' (Context_setStash key value stash)
     = Context_setStash key value' stash.
Proof.
  unfold Context_stash_default, Context_stash_key, Context_setStash.
  split; [apply QHash_value_insert |]. split.
  - rewrite QHash_value_insert. now rewrite String.eqb_refl.
  - unfold QHash_insert. apply stdpp.fin_maps.insert_insert_eq.
Qed.

(** X2.  [stashTake] gives what [stash(key)] gives and removes the key: the
    key then reads as the default, [stashRemove] of it reports that
    nothing was removed, and the other keys read as before.  When the key
    is absent the value taken is invalid and the stash is unchanged.
    [stashRemove] reports whether the key was there and leaves the stash
    that [stashTake] leaves. *)
Theorem stashTake_removes (key key' : string) (defaultValue : QVariant)
  (stash : QVariantHash) :
  fst (Context_stashTake key stash) = Context_stash_key key stash
  /\ Context_stash_default key' defaultValue (snd (Context_stashTake key stash))
     = (if String.eqb key' key then defaultValue
        else Context_stash_default key' defaultValue stash)
  /\ fst (Context_stashRemove key (snd (Context_stashTake key stash))) = false
  /\ (QHash_contains stash key = false ->
      Context_stashTake key stash = (QVariant_invalid, stash))
  /\ Context_stashRemove key stash
     = (QHash_contains stash key, snd (Context_stashTake key stash)).
Proof.
  unfold Context_stashTake, Context_stashRemove, Context_stash_key,
    Context_stash_default, QHash_take, QHash_remove. cbn [fst snd].
  split; [reflexivity |]. split; [apply QHash_value_delete |].
  split; [| split].
  - unfold QHash_contains. now rewrite stdpp.fin_maps.lookup_delete_eq.
  - unfold QHash_contains, QHash_value. intros Habsent.
    destruct (stdpp.base.lookup key stash) eqn:Hlook; [discriminate |].
    now rewrite stdpp.fin_maps.delete_id.
  - now destruct (QHash_contains stash key).
Qed.

(** X3.  [stash(unite)] leaves the union of the two hashes in which the
    entries of [unite] win, in whatever order the loop meets them: a key
    of [unite] reads as in [unite], any other key as before. *)
Theorem stash_unite_union (unite stash : QVariantHash) (key : string)
  (defaultValue : QVariant) :
  Context_stash_unite unite stash = stdpp.base.union unite stash
  /\ Context_stash_default key defaultValue (Context_stash_unite unite stash)
     = (if QHash_contains unite key
        then Context_stash_default key defaultValue unite
        else Context_stash_default key defaultValue stash).
Proof.
  assert (Hunion : Context_stash_unite unite stash = stdpp.base.union unite stash).
  { unfold Context_stash_unite.
    apply (stdpp.fin_maps.map_fold_weak_ind
             (fun r m => r = stdpp.base.union m stash)).
    - symmetry. apply (stdpp.base.left_id_L stdpp.base.empty stdpp.base.union).
    - intros i x m r _ ->. unfold QHash_insert.
      apply stdpp.fin_maps.insert_union_l. }
  split; [exact Hunion |].
  rewrite Hunion. unfold Context_stash_default, QHash_value, QHash_contains.
  rewrite stdpp.fin_maps.lookup_union.
  destruct (stdpp.base.lookup key unite), (stdpp.base.lookup key stash); reflexivity.
Qed.

(* ================================================================= *)
(** ** More of the URI builder *)

Lemma QString_startsWith_app (c : ascii) (s t : string) :
  QString_isEmpty s = false ->
  QString_startsWith c (s ++ t)%string = QString_startsWith c s.
Proof. destruct s; [discriminate | reflexivity]. Qed.

(** X4.  Whatever the path, the arguments and the namespace, the URI of
    [uriFor] has a path with a leading slash and the scheme and the
    authority of the request; its path and its query do not depend on
    the URI of the request, whose own query is never kept. *)
Theorem uriFor_wellformed (requestUri requestUri' : QUrl) (controllerNS : string)
  (path : string) (args : list string) (queryValues : ParamsMultiMap) :
  QString_startsWith "/"%char
    (url_path (Context_uriFor requestUri controllerNS path args queryValues)) = true
  /\ url_scheme (Context_uriFor requestUri controllerNS path args queryValues)
     = url_scheme requestUri
  /\ url_authority (Context_uriFor requestUri controllerNS path args queryValues)
     = url_authority requestUri
  /\ url_path (Context_uriFor requestUri controllerNS path args queryValues)
     = url_path (Context_uriFor requestUri' controllerNS path args queryValues)
  /\ url_query (Context_uriFor requestUri controllerNS path args queryValues)
     = url_query (Context_uriFor requestUri' controllerNS path args queryValues).
Proof.
  unfold Context_uriFor, QUrl_setQuery, QUrl_setPath.
  cbn [url_path url_scheme url_authority url_query].
  repeat split.
  match goal with
  | |- QString_startsWith _ (if negb (QString_startsWith _ ?p) then _ else _) = true =>
      destruct (QString_startsWith "/" p) eqn:Hslash; [exact Hslash | reflexivity]
  end.
Qed.

(** X5.  With an empty path the URI lies under the namespace of the
    controller: for a namespace that is not empty and has no leading
    slash the path is a slash and the namespace, followed by a slash and
    the joined arguments when there are arguments.  Arguments under the
    root path follow its slash at once, with no second slash; and an
    empty path without namespace and arguments gives the root. *)
Theorem uriFor_path_edges (requestUri : QUrl) (controllerNS : string)
  (args : list string) (queryValues : ParamsMultiMap) :
  QString_isEmpty controllerNS = false ->
  QString_startsWith "/"%char controllerNS = false ->
  url_path (Context_uriFor requestUri controllerNS EmptyString args queryValues)
  = match args with
    | [] => ("/" ++ controllerNS)%string
    | _ :: _ => ("/" ++ controllerNS ++ "/" ++ QStringList_join "/" args)%string
    end
  /\ (forall first rest,
         url_path (Context_uriFor requestUri controllerNS "/" (first :: rest)
                     queryValues)
         = ("/" ++ QStringList_join "/" (first :: rest))%string)
  /\ url_path (Context_uriFor requestUri EmptyString EmptyString [] queryValues)
     = "/".
Proof.
  intros Hne Hslash. split; [| split; reflexivity].
  unfold Context_uriFor, QUrl_setQuery, QUrl_setPath. cbn [url_path QString_isEmpty].
  rewrite Hne. cbn [negb].
  destruct args as [| first rest].
  - now rewrite Hslash.
  - assert (Hroot : String.eqb controllerNS "/" = false).
    { destruct (String.eqb_spec controllerNS "/") as [-> | _]; [discriminate | reflexivity]. }
    rewrite Hroot, QString_startsWith_app, Hslash by exact Hne. reflexivity.
Qed.

(** X6.  Moving arguments into the captures loses nothing and keeps the
    order: the captures and arguments that [uriFor] for an action goes
    on with are, one after the other, the captures and arguments it was
    given.  For a positive count the captures given come first among the
    captures resolved, which are no more than the count unless more were
    given; otherwise no captures are resolved. *)
Theorem split_captures_keeps_order (n : Z) (captures args : list string) :
  fst (split_captures n captures args) ++ snd (split_captures n captures args)
  = captures ++ args
  /\ (0 < n ->
      exists moved,
        fst (split_captures n captures args) = captures ++ moved /\
        args = moved ++ snd (split_captures n captures args) /\
        size (fst (split_captures n captures args)) <= Z.max n (size captures))
  /\ (n <= 0 -> fst (split_captures n captures args) = []).
Proof.
  unfold split_captures.
  destruct (Z.ltb_spec 0 n) as [Hpos | Hneg].
  - rewrite take_captures_spec. cbn [fst snd].
    set (k := Nat.min (Z.to_nat (n - size captures)) (List.length args)).
    split; [now rewrite <- app_assoc, firstn_skipn |].
    split; [| lia].
    intros _. exists (firstn k args).
    split; [reflexivity |]. split; [now rewrite firstn_skipn |].
    unfold size in *. rewrite length_app, length_firstn. fold k.
    subst k. lia.
  - cbn [fst snd app]. split; [reflexivity |]. split; [lia | reflexivity].
Qed.

(** X7.  [uriFor] for an action has no result only when the dispatcher
    expands to no action.  Otherwise it gives the default-constructed URI
    together with one warning, or, without a warning, a URI with the
    scheme and authority of the request and a path with a leading slash.
    [uriForAction] for a path that the dispatcher does not know gives the
    default-constructed URI and the warning, without asking the
    dispatcher anything else; for a path it knows, it gives what [uriFor]
    gives for the action found. *)
Theorem uriFor_action_result (getActionByPath : string -> option Component)
  (dispatcher : Dispatcher) (requestUri : QUrl) (controllerNS : string)
  (current : Component) (action : option Component) (path : string)
  (captures args : list string) (queryValues : ParamsMultiMap) :
  match Context_uriFor_action dispatcher requestUri controllerNS current action
          captures args queryValues with
  | None => expandAction dispatcher action = None
  | Some (logs, uri) =>
      (logs = [Log CUTELYST_CORE QtWarningMsg "Can not find action for"]
       /\ uri = QUrl_empty)
      \/ (logs = []
          /\ url_scheme uri = url_scheme requestUri
          /\ url_authority uri = url_authority requestUri
          /\ QString_startsWith "/"%char (url_path uri) = true)
  end
  /\ (getActionByPath path = None ->
      Context_uriForAction getActionByPath dispatcher requestUri controllerNS
        current path captures args queryValues
      = Some ([Log CUTELYST_CORE QtWarningMsg "Can not find action for"], QUrl_empty))
  /\ (forall found,
         getActionByPath path = Some found ->
         Context_uriForAction getActionByPath dispatcher requestUri controllerNS
           current path captures args queryValues
         = Context_uriFor_action dispatcher requestUri controllerNS current
             (Some found) captures args queryValues).
Proof.
  split; [| split].
  - unfold Context_uriFor_action.
    destruct (expandAction dispatcher action) as [expanded |]; [| reflexivity].
    destruct (split_captures (numberOfCaptures expanded) captures args)
      as [localCaptures localArgs].
    destruct (QString_isEmpty _); [left; split; reflexivity |].
    right. split; [reflexivity |].
    destruct (uriFor_wellformed requestUri requestUri controllerNS
                (uriForAction dispatcher
                   match action with Some a => a | None => current end
                   localCaptures)
                localArgs queryValues) as (H1 & H2 & H3 & _).
    auto.
  - intros Hnone. unfold Context_uriForAction. now rewrite Hnone.
  - intros found Hfound. unfold Context_uriForAction. now rewrite Hfound.
Qed.

(* ================================================================= *)
(** ** Every run, with what the guards know *)

Lemma statsStartExecute_cases (c : Component) (d : ContextPrivate) :
  statsStartExecute c d = (EmptyString, d)
  \/ exists label,
       statsStartExecute c d = (label, set_trace (trace d ++ [ProfileStart label]) d).
Proof.
  unfold statsStartExecute.
  destruct (QString_startsWith "_" (name c)); [now left |].
  right. eexists. reflexivity.
Qed.

(** As [Context_execute_inv], with what the tests of [execute] tell of
    the events before and after the body. *)
Lemma Context_execute_inv_guarded
  (RECURSION : option Z)
  (invoke : Script -> ContextPrivate -> option (bool * ContextPrivate))
  (c : Component) (d : ContextPrivate) (r : bool) (d' : ContextPrivate) :
  Context_execute RECURSION invoke c d = Some (r, d') ->
  (recursion_limit RECURSION <= size (stack d) /\ r = false /\
   d' = Context_setState false (Context_error (deep_recursion_msg c d) d))
  \/
  (size (stack d) < recursion_limit RECURSION /\
   exists (ps pe : list Event) (d2 : ContextPrivate),
     profiled ps pe /\
     (stats d = false -> ps = []) /\
     (stats d2 = false -> pe = []) /\
     invoke (body c) (enter c (ps ++ [Invoke (S (List.length (stack d))) c]) d)
       = Some (r, d2) /\
     d' = leave (Returned (S (List.length (stack d))) c r :: pe) d2).
Proof.
  unfold Context_execute. intros H.
  destruct (Z.geb_spec (size (stack d)) (recursion_limit RECURSION)) as [Hge | Hlt].
  - left. injection H as <- <-. repeat split; lia.
  - right. split; [lia |].
    assert (Hdepth : forall tr,
               List.length (stack (set_trace tr (push c d)))
               = S (List.length (stack d))).
    { intros tr. cbn [push stack set_stack set_trace].
      rewrite length_app. simpl. lia. }
    assert (Henter : forall ps,
               emit (Invoke (S (List.length (stack d))) c)
                    (set_trace (trace (push c d) ++ ps) (push c d))
               = enter c (ps ++ [Invoke (S (List.length (stack d))) c]) d).
    { intros ps. unfold enter, emit, push. cbn. now rewrite <- app_assoc. }
    assert (Hsame : set_trace (trace (push c d)) (push c d) = push c d)
      by (unfold set_trace; now rewrite ContextPrivate_eta).
    change (stats (push c d)) with (stats d) in H.
    destruct (stats d) eqn:Hstats.
    + destruct (statsStartExecute_cases c (push c d)) as [Hstart | [label Hstart]];
        rewrite Hstart in H; unfold Component_execute in H.
      * pose proof (Hdepth (trace (push c d))) as Hd. pose proof (Henter []) as He.
        rewrite app_nil_r, Hsame in He. rewrite Hsame in Hd.
        rewrite Hd, He in H.
        destruct (invoke (body c) _) as [[ret d2] |] eqn:Hbody; [| discriminate].
        rewrite andb_false_r in H. injection H as <- <-.
        exists [], [], d2. split; [left; auto |]. repeat split; auto.
      * rewrite Hdepth, Henter in H.
        destruct (invoke (body c) _) as [[ret d2] |] eqn:Hbody; [| discriminate].
        injection H as <- <-.
        change (stats (emit (Returned (S (List.length (stack d))) c ret) d2))
          with (stats d2).
        destruct (stats d2 && negb (QString_isEmpty label)) eqn:Hend.
        -- exists [ProfileStart label], [ProfileEnd label], d2.
           split; [right; exists label; auto |].
           split; [discriminate |].
           split; [intros Hoff; rewrite Hoff in Hend; discriminate |].
           split; [exact Hbody |].
           unfold leave, pop, statsFinishExecute, emit. cbn.
           now rewrite <- app_assoc.
        -- exists [ProfileStart label], [], d2.
           split; [right; exists label; auto |].
           split; [discriminate |]. repeat split; auto.
    + unfold Component_execute in H.
      pose proof (Hdepth (trace (push c d))) as Hd. pose proof (Henter []) as He.
      rewrite app_nil_r, Hsame in He. rewrite Hsame in Hd.
      rewrite Hd, He in H.
      destruct (invoke (body c) _) as [[ret d2] |] eqn:Hbody; [| discriminate].
      injection H as <- <-.
      exists [], [], d2. split; [left; auto |]. repeat split; auto.
Qed.

Section GuardedRun.

Variable RECURSION : option Z.
Variable Inv : ContextPrivate -> ContextPrivate -> Prop.
Hypothesis rules : GuardedRule RECURSION Inv.

Let G_trans := guarded_trans _ _ rules.

Section WithGuardedInvoke.

Variable invoke : Script -> ContextPrivate -> option (bool * ContextPrivate).
Hypothesis invoke_keeps : keeps_guarded Inv invoke.

Lemma Context_execute_guarded (c : Component) (d : ContextPrivate)
  (r : bool) (d' : ContextPrivate) :
  Context_execute RECURSION invoke c d = Some (r, d') -> Inv d d'.
Proof.
  intros Hrun. apply Context_execute_inv_guarded in Hrun.
  destruct Hrun as [(Hge & -> & ->)
                   | (Hlt & ps & pe & d2 & Hshape & Hoff & Hoff2 & Hbody & ->)].
  - now apply (guarded_limit _ _ rules).
  - apply (guarded_bracket _ _ rules c d d2 r ps pe); try assumption.
    exact (invoke_keeps _ _ _ _ Hbody).
Qed.

Lemma attachAsync_loop_guarded (n : nat) :
  forall d d',
    attachAsync_loop RECURSION invoke n d = Some d' -> Inv d d'.
Proof.
  induction n as [| n IH]; intros d d' Hrun; cbn [attachAsync_loop] in Hrun;
    destruct (Z.ltb_spec (asyncAction d) (size (pendingAsync d))) as [Hlt | Hge];
    try discriminate;
    try (injection Hrun as <-; now apply (guarded_done _ _ rules)).
  unfold QVector_at in Hrun.
  destruct (Z.ltb_spec (asyncAction d) 0) as [Hneg | Hpos]; [discriminate |].
  destruct (nth_error (pendingAsync d) (Z.to_nat (asyncAction d))) as [action |];
    [| discriminate].
  set (d1 := set_asyncAction (asyncAction d + 1) d) in *.
  assert (H01 : Inv d d1) by (apply (guarded_advance _ _ rules); lia).
  destruct (Context_execute RECURSION invoke action d1) as [[r d2] |] eqn:Hexec;
    [| discriminate].
  pose proof (Context_execute_guarded _ _ _ _ Hexec) as H12.
  destruct r.
  - destruct (negb (asyncDetached d2 =? 0)).
    + injection Hrun as <-. eauto.
    + pose proof (IH _ _ Hrun) as H23. eauto.
  - injection Hrun as <-.
    pose proof (guarded_done _ _ rules d2) as H23. eauto.
Qed.

Lemma Context_attachAsync_guarded (n : nat) (d d' : ContextPrivate) :
  Context_attachAsync RECURSION invoke n d = Some d' -> Inv d d'.
Proof.
  intros Hrun. unfold Context_attachAsync in Hrun.
  set (d1 := set_asyncDetached (int32 (asyncDetached d - 1)) d) in *.
  assert (H01 : Inv d d1) by apply (guarded_decrement _ _ rules).
  destruct (negb (asyncDetached d1 =? 0)).
  - injection Hrun as <-. exact H01.
  - destruct (has_flag (status d1) Finalized).
    + injection Hrun as <-.
      eapply G_trans; [exact H01 |]. apply (guarded_warning _ _ rules).
    + pose proof (attachAsync_loop_guarded n _ _ Hrun) as H12. eauto.
Qed.

Lemma perform_guarded (n : nat) (call : Call) (d : ContextPrivate)
  (r : bool) (d' : ContextPrivate) :
  perform RECURSION invoke n call d = Some (r, d') -> Inv d d'.
Proof.
  intros Hrun.
  destruct call as [msg | b | [a |] | | | a | a | | | |];
    cbn [perform] in Hrun.
  - injection Hrun as _ <-. apply (guarded_error _ _ rules).
  - injection Hrun as _ <-. apply (guarded_setState _ _ rules).
  - unfold Context_detach, Dispatcher_forward in Hrun.
    destruct (Context_execute RECURSION invoke a d) as [[r0 d0] |] eqn:Hexec;
      [| discriminate].
    injection Hrun as _ <-. exact (Context_execute_guarded _ _ _ _ Hexec).
  - injection Hrun as _ <-. apply (guarded_detach _ _ rules).
  - injection Hrun as _ <-. apply (guarded_detachAsync _ _ rules).
  - destruct (Context_attachAsync RECURSION invoke n d) as [d0 |] eqn:Hatt;
      [| discriminate].
    injection Hrun as _ <-. exact (Context_attachAsync_guarded _ _ _ Hatt).
  - exact (Context_execute_guarded _ _ _ _ Hrun).
  - exact (Context_execute_guarded _ _ _ _ Hrun).
  - injection Hrun as _ <-. apply (guarded_finalize _ _ rules).
  - injection Hrun as _ <-. apply (guarded_refl _ _ rules).
  - injection Hrun as _ <-. apply (guarded_refl _ _ rules).
  - injection Hrun as _ <-. apply (guarded_refl _ _ rules).
Qed.

End WithGuardedInvoke.

(** Every run keeps the relation. *)
Lemma run_guarded (fuel : nat) : keeps_guarded Inv (run RECURSION fuel).
Proof.
  induction fuel as [| fuel IH]; intros s d r d' Hrun; [discriminate |].
  cbn [run] in Hrun. destruct s as [ret | call k].
  - injection Hrun as _ <-. apply (guarded_refl _ _ rules).
  - destruct (perform RECURSION (run RECURSION fuel) fuel call d)
      as [[r1 d1] |] eqn:Hperf; [| discriminate].
    pose proof (perform_guarded _ IH _ _ _ _ _ Hperf) as H01.
    pose proof (IH _ _ _ _ Hrun) as H12. eauto.
Qed.

(** So does [execute], and so does [attachAsync]. *)
Lemma execute_guarded (fuel : nat) (c : Component) (d : ContextPrivate)
  (r : bool) (d' : ContextPrivate) :
  execute RECURSION fuel c d = Some (r, d') -> Inv d d'.
Proof. apply Context_execute_guarded, run_guarded. Qed.

Lemma attachAsync_guarded (fuel : nat) (d d' : ContextPrivate) :
  attachAsync RECURSION fuel d = Some d' -> Inv d d'.
Proof. apply Context_attachAsync_guarded, run_guarded. Qed.

End GuardedRun.

(* ================================================================= *)
(** ** The cursor stays within the queue *)

Lemma cursor_within_same (d d' : ContextPrivate) :
  pendingAsync d' = pendingAsync d -> asyncAction d' = asyncAction d ->
  cursor_within d d'.
Proof. unfold cursor_within. intros -> ->. repeat split; auto; lia. Qed.

Lemma cursor_within_rule (RECURSION : option Z) :
  GuardedRule RECURSION cursor_within.
Proof.
  constructor.
  - intros d. now apply cursor_within_same.
  - unfold cursor_within. intros d1 d2 d3 (Hq1 & Hle1 & Hb1) (Hq2 & Hle2 & Hb2).
    rewrite Hq1 in *. repeat split; [congruence | lia |].
    intros H. apply Hb2. now apply Hb1.
  - intros msg d. apply cursor_within_same; now unfold_methods.
  - intros b d. now apply cursor_within_same.
  - intros d. now apply cursor_within_same.
  - intros d. now apply cursor_within_same.
  - intros d. apply cursor_within_same; now unfold_methods.
  - intros c d _. apply cursor_within_same; now unfold_methods.
  - intros c d d2 r ps pe _ _ _ _ H. exact H.
  - intros d. now apply cursor_within_same.
  - intros text d. now apply cursor_within_same.
  - intros d Hin. unfold cursor_within. cbn [pendingAsync asyncAction set_asyncAction].
    repeat split; lia.
  - intros d. apply cursor_within_same; now unfold_methods.
Qed.

(** X8.  Whatever a script calls on the context, the cursor into the pending
    actions only moves forward and, when it starts within the queue,
    stays within it; the queue itself is never changed.  The same holds
    of every result of [attachAsync] and of [execute]. *)
Theorem cursor_stays_within
  (RECURSION : option Z) (fuel : nat) (s : Script) (d : ContextPrivate) :
  0 <= asyncAction d <= size (pendingAsync d) ->
  (enough_fuel s d <= fuel)%nat ->
  (exists r d',
     run RECURSION fuel s d = Some (r, d') /\
     pendingAsync d' = pendingAsync d /\
     asyncAction d <= asyncAction d' <= size (pendingAsync d'))
  /\ (forall fuel' d',
        attachAsync RECURSION fuel' d = Some d' ->
        pendingAsync d' = pendingAsync d /\
        asyncAction d <= asyncAction d' <= size (pendingAsync d'))
  /\ (forall fuel' c r d',
        execute RECURSION fuel' c d = Some (r, d') ->
        pendingAsync d' = pendingAsync d /\
        asyncAction d <= asyncAction d' <= size (pendingAsync d')).
Proof.
  intros Hin Hfuel.
  assert (Hbound : forall d', cursor_within d d' ->
             pendingAsync d' = pendingAsync d /\
             asyncAction d <= asyncAction d' <= size (pendingAsync d')).
  { intros d' (Hq & Hle & Hb). rewrite Hq. repeat split; [exact Hle | apply Hb; lia]. }
  split; [| split].
  - destruct (run_gives RECURSION fuel s d) as (r & d' & Hrun); [lia | exact Hfuel |].
    exists r, d'. split; [exact Hrun |].
    apply Hbound. exact (run_guarded _ _ (cursor_within_rule RECURSION) fuel _ _ _ _ Hrun).
  - intros fuel' d' Hrun. apply Hbound.
    exact (attachAsync_guarded _ _ (cursor_within_rule RECURSION) fuel' _ _ Hrun).
  - intros fuel' c r d' Hrun. apply Hbound.
    exact (execute_guarded _ _ (cursor_within_rule RECURSION) fuel' _ _ _ _ Hrun).
Qed.

(* ================================================================= *)
(** ** The depth of the stack *)

Lemma depth_bounded_plain (limit : Z) (d d' : ContextPrivate) (tr : list Event) :
  trace d' = trace d ++ tr ->
  Forall (fun e => match e with Invoke _ _ => False | _ => True end) tr ->
  depth_bounded limit d d'.
Proof.
  intros Ht Hplain. exists tr. split; [exact Ht |].
  eapply Forall_impl; [| exact Hplain].
  intros [] H; cbn; auto; contradiction.
Qed.

(** The events that the methods themselves add to the trace: log
    lines, the report of the statistics, the signal after dispatch and
    the handing over of the response. *)
Lemma methods_trace (d : ContextPrivate) :
  (forall msg, exists tr, trace (Context_error msg d) = trace d ++ tr
                          /\ (tr = [] \/ tr = [Log CUTELYST_CORE QtCriticalMsg msg]))
  /\ (exists tr, trace (Context_finalize d) = trace d ++ tr
                 /\ ((has_flag (status d) Finalized = true /\
                      tr = [Log CUTELYST_CORE QtWarningMsg
                              "Trying to finalize a finalized request! Skipping..."])
                     \/ (has_flag (status d) Finalized = false /\
                         stats d = true /\ tr = [StatsReport; EngineFinalize])
                     \/ (has_flag (status d) Finalized = false /\
                         stats d = false /\ tr = [EngineFinalize]))).
Proof.
  split.
  - intros msg. unfold Context_error.
    destruct (QString_isEmpty msg).
    + exists []. cbn. rewrite app_nil_r. auto.
    + eexists. split; [reflexivity | auto].
  - unfold Context_finalize, EngineRequest_finalize, emit.
    destruct (has_flag (status d) Finalized).
    + eexists. split; [reflexivity | auto].
    + destruct (stats d); cbn [trace set_status set_stats set_trace].
      * exists [StatsReport; EngineFinalize]. rewrite <- app_assoc.
        split; [reflexivity | right; left; auto].
      * eexists. split; [reflexivity | right; right; auto].
Qed.

Lemma attachAsync_done_trace (d : ContextPrivate) :
  attachAsync_done d = d
  \/ (attachAsync_done d = Context_finalize (emit AfterDispatch d)
      /\ has_flag (status d) Async = true).
Proof.
  unfold attachAsync_done. destruct (has_flag (status d) Async); auto.
Qed.

Lemma depth_bounded_refl (limit : Z) (d : ContextPrivate) : depth_bounded limit d d.
Proof. exists []. split; [unfold added; now rewrite app_nil_r | constructor]. Qed.

Lemma depth_bounded_trans (limit : Z) (d1 d2 d3 : ContextPrivate) :
  depth_bounded limit d1 d2 -> depth_bounded limit d2 d3 -> depth_bounded limit d1 d3.
Proof.
  intros (tr1 & H1 & F1) (tr2 & H2 & F2). exists (tr1 ++ tr2).
  split; [unfold added in *; now rewrite H2, H1, app_assoc |].
  apply Forall_app. now split.
Qed.

Lemma depth_bounded_finalize (limit : Z) (d : ContextPrivate) :
  depth_bounded limit d (Context_finalize d).
Proof.
  destruct (methods_trace d) as (_ & tr & Ht & Hcases).
  apply (depth_bounded_plain limit d _ tr Ht).
  destruct Hcases as [(_ & ->) | [(_ & _ & ->) | (_ & _ & ->)]];
    repeat constructor.
Qed.

Lemma depth_bounded_error (limit : Z) (msg : string) (d : ContextPrivate) :
  depth_bounded limit d (Context_error msg d).
Proof.
  destruct (methods_trace d) as (Herr & _). destruct (Herr msg) as (tr & Ht & Hcases).
  apply (depth_bounded_plain limit d _ tr Ht).
  destruct Hcases as [-> | ->]; repeat constructor.
Qed.

Lemma depth_bounded_same (limit : Z) (d d' : ContextPrivate) :
  trace d' = trace d -> depth_bounded limit d d'.
Proof.
  intros Ht. exists []. split; [unfold added; now rewrite app_nil_r | constructor].
Qed.

Lemma depth_bounded_rule (RECURSION : option Z) :
  GuardedRule RECURSION (depth_bounded (recursion_limit RECURSION)).
Proof.
  constructor.
  - apply depth_bounded_refl.
  - apply depth_bounded_trans.
  - intros msg d. apply depth_bounded_error.
  - intros b d. now apply depth_bounded_same.
  - intros d. now apply depth_bounded_same.
  - intros d. now apply depth_bounded_same.
  - intros d. apply depth_bounded_finalize.
  - intros c d _.
    exact (depth_bounded_error _ (deep_recursion_msg c d) d).
  - intros c d d2 r ps pe Hlt Hshape _ _ (tr & Ht & Hd).
    unfold added, enter in Ht. cbn [trace set_trace set_stack] in Ht.
    exists ((ps ++ [Invoke (S (List.length (stack d))) c]) ++ tr
            ++ Returned (S (List.length (stack d))) c r :: pe).
    split.
    + unfold added, leave. cbn [trace set_trace set_stack].
      now rewrite Ht, <- !app_assoc.
    + unfold size in Hlt.
      assert (Hps : Forall (invoked_within (recursion_limit RECURSION)) ps)
        by (destruct Hshape as [[-> _] | (l & -> & _)]; repeat constructor).
      assert (Hpe : Forall (invoked_within (recursion_limit RECURSION)) pe)
        by (destruct Hshape as [[_ ->] | (l & _ & [-> | ->])]; repeat constructor).
      repeat (apply Forall_app; split); auto.
      * constructor; [cbn; lia | constructor].
      * constructor; [exact I | exact Hpe].
  - intros d. now apply depth_bounded_same.
  - intros text d. eexists. split; [reflexivity | repeat constructor].
  - intros d _. now apply depth_bounded_same.
  - intros d. destruct (attachAsync_done_trace d) as [-> | [-> _]].
    + apply depth_bounded_refl.
    + eapply depth_bounded_trans; [| apply depth_bounded_finalize].
      eexists. split; [reflexivity | repeat constructor].
Qed.

(** X9.  The recursion limit bounds the stack: in every run, every component
    that is invoked finds at most as many components on the stack,
    itself included, as the limit allows. *)
Theorem invoked_within_limit
  (RECURSION : option Z) (fuel : nat) (s : Script) (d : ContextPrivate) :
  0 <= asyncAction d ->
  (enough_fuel s d <= fuel)%nat ->
  exists r d' tr,
    run RECURSION fuel s d = Some (r, d') /\
    trace d' = trace d ++ tr /\
    forall n c, In (Invoke n c) tr -> Z.of_nat n <= recursion_limit RECURSION.
Proof.
  intros Hpos Hfuel.
  destruct (run_gives RECURSION fuel s d Hpos Hfuel) as (r & d' & Hrun).
  destruct (run_guarded _ _ (depth_bounded_rule RECURSION) fuel _ _ _ _ Hrun)
    as (tr & Ht & Hd).
  exists r, d', tr. repeat split; [exact Hrun | exact Ht |].
  intros n c Hin. rewrite Forall_forall in Hd. exact (Hd _ Hin).
Qed.

(* ================================================================= *)
(** ** The profiler *)

Lemma profile_starts_app (tr1 tr2 : list Event) :
  profile_starts (tr1 ++ tr2) = (profile_starts tr1 + profile_starts tr2)%nat.
Proof.
  induction tr1 as [| e tr1 IH]; [reflexivity |].
  destruct e; simpl; rewrite IH; reflexivity.
Qed.

Lemma profile_ends_app (tr1 tr2 : list Event) :
  profile_ends (tr1 ++ tr2) = (profile_ends tr1 + profile_ends tr2)%nat.
Proof.
  induction tr1 as [| e tr1 IH]; [reflexivity |].
  destruct e; simpl; rewrite IH; reflexivity.
Qed.

Lemma no_stats_events_ends (tr : list Event) :
  forallb (fun e => negb (is_stats_event e)) tr = true -> profile_ends tr = O.
Proof.
  induction tr as [| e tr IH]; [reflexivity |].
  cbn [forallb]. intros H. apply andb_true_iff in H. destruct H as [He Htr].
  destruct e; cbn in *; try discriminate; auto.
Qed.

(** A step that adds no event of the profiler or of the statistics and
    leaves the statistics as they are. *)
Lemma profiling_kept_plain (d d' : ContextPrivate) (tr : list Event) :
  trace d' = trace d ++ tr -> stats d' = stats d ->
  forallb (fun e => negb (is_stats_event e)) tr = true ->
  profiling_kept d d'.
Proof.
  intros Ht Hs Hplain. exists tr. split; [exact Ht |]. split.
  - rewrite (no_stats_events_ends tr Hplain). lia.
  - intros Hoff. split; [congruence | exact Hplain].
Qed.

Lemma profiling_kept_same (d d' : ContextPrivate) :
  trace d' = trace d -> stats d' = stats d -> profiling_kept d d'.
Proof.
  intros Ht Hs. apply (profiling_kept_plain d d' []); auto.
  now rewrite app_nil_r.
Qed.

Lemma profiling_kept_trans (d1 d2 d3 : ContextPrivate) :
  profiling_kept d1 d2 -> profiling_kept d2 d3 -> profiling_kept d1 d3.
Proof.
  intros (tr1 & H1 & L1 & O1) (tr2 & H2 & L2 & O2). exists (tr1 ++ tr2).
  split; [unfold added in *; now rewrite H2, H1, app_assoc |]. split.
  - rewrite profile_starts_app, profile_ends_app. lia.
  - intros Hoff. destruct (O1 Hoff) as [Hoff2 P1]. destruct (O2 Hoff2) as [Hoff3 P2].
    split; [exact Hoff3 |]. now rewrite forallb_app, P1, P2.
Qed.

Lemma profiling_kept_error (msg : string) (d : ContextPrivate) :
  profiling_kept d (Context_error msg d).
Proof.
  unfold Context_error. destruct (QString_isEmpty msg).
  - now apply profiling_kept_same.
  - now apply (profiling_kept_plain d _ [Log CUTELYST_CORE QtCriticalMsg msg]).
Qed.

Lemma profiling_kept_finalize (d : ContextPrivate) :
  profiling_kept d (Context_finalize d).
Proof.
  unfold Context_finalize, EngineRequest_finalize.
  destruct (has_flag (status d) Finalized).
  - eapply profiling_kept_plain; [reflexivity | reflexivity | reflexivity].
  - destruct (stats d) eqn:Hstats.
    + exists [StatsReport; EngineFinalize].
      split; [unfold added, emit; cbn; now rewrite <- app_assoc |].
      split; [cbn; lia | intros Hoff; congruence].
    + apply (profiling_kept_plain d _ [EngineFinalize]); auto.
Qed.

Lemma profiling_kept_rule (RECURSION : option Z) :
  GuardedRule RECURSION profiling_kept.
Proof.
  constructor.
  - intros d. now apply profiling_kept_same.
  - apply profiling_kept_trans.
  - apply profiling_kept_error.
  - intros b d. now apply profiling_kept_same.
  - intros d. now apply profiling_kept_same.
  - intros d. now apply profiling_kept_same.
  - apply profiling_kept_finalize.
  - intros c d _.
    destruct (profiling_kept_error (deep_recursion_msg c d) d) as (tr & Ht & H).
    exists tr. split; [exact Ht | exact H].
  - intros c d d2 r ps pe _ Hshape Hoff Hoff2 (tr & Ht & Hle & Hkept).
    unfold added, enter in Ht. cbn [trace set_trace set_stack] in Ht.
    change (stats (enter c (ps ++ [Invoke (S (List.length (stack d))) c]) d))
      with (stats d) in Hkept.
    exists ((ps ++ [Invoke (S (List.length (stack d))) c]) ++ tr
            ++ Returned (S (List.length (stack d))) c r :: pe).
    split; [| split].
    + unfold added, leave. cbn [trace set_trace set_stack].
      now rewrite Ht, <- !app_assoc.
    + rewrite !profile_starts_app, !profile_ends_app.
      destruct Hshape as [[-> ->] | (l & -> & [-> | ->])]; cbn; lia.
    + intros Hstats. destruct (Hkept Hstats) as [Hstats2 Hplain].
      rewrite (Hoff Hstats) in *.
      assert (Hpe : pe = [])
        by (destruct Hshape as [[_ ->] | (l & Hps & _)]; [reflexivity | discriminate]).
      subst pe. split; [exact Hstats2 |].
      rewrite !forallb_app, Hplain. reflexivity.
  - intros d. now apply profiling_kept_same.
  - intros text d.
    now apply (profiling_kept_plain d _ [Log CUTELYST_ASYNC QtWarningMsg text]).
  - intros d _. now apply profiling_kept_same.
  - intros d. destruct (attachAsync_done_trace d) as [-> | [-> _]].
    + now apply profiling_kept_same.
    + eapply profiling_kept_trans; [| apply profiling_kept_finalize].
      now apply (profiling_kept_plain d _ [AfterDispatch]).
Qed.

Lemma QString_rightJustified_pad (s : string) (n : Z) :
  QString_rightJustified s (Z.of_nat (String.length s) + n - 2) " "
  = (QString_fill " " (Z.to_nat (n - 2)) ++ s)%string.
Proof.
  unfold QString_rightJustified. f_equal. f_equal. lia.
Qed.

(** X11.  The label under which a component is profiled: none for a component
    whose name begins with an underscore, of which the profiler is told
    nothing; otherwise the canonical path, after a slash for an action,
    and, with more than two components on the stack, after an arrow and
    as many spaces before it as there are components beyond two. *)
Theorem stats_label (c : Component) (d : ContextPrivate) :
  (QString_startsWith "_"%char (name c) = true ->
   statsStartExecute c d = (EmptyString, d))
  /\ (QString_startsWith "_"%char (name c) = false ->
      let base := ((if isAction c then "/" else "") ++ reverse c)%string in
      let label :=
        if 2 <? size (stack d)
        then (QString_fill " " (Z.to_nat (size (stack d) - 2)) ++ "-> " ++ base)%string
        else base in
      statsStartExecute c d = (label, emit (ProfileStart label) d)).
Proof.
  unfold statsStartExecute. split; intros Hname; rewrite Hname; [reflexivity |].
  cbv zeta.
  assert (Hbase : (if isAction c then ("/" ++ reverse c)%string else reverse c)
                  = ((if isAction c then "/" else "") ++ reverse c)%string)
    by now destruct (isAction c).
  rewrite Hbase.
  destruct (2 <? size (stack d)); [| reflexivity].
  now rewrite QString_rightJustified_pad.
Qed.

(* ================================================================= *)
(** ** The response is handed over once *)

Lemma finalized_once_plain (d d' : ContextPrivate) (tr : list Event) :
  trace d' = trace d ++ tr -> finalizations tr = O ->
  has_flag (status d') Finalized = has_flag (status d) Finalized ->
  finalized_once d d'.
Proof.
  intros Ht Hz Hf. exists tr. split; [exact Ht |].
  rewrite Hf. destruct (has_flag (status d) Finalized); auto.
Qed.

Lemma finalized_once_same (d d' : ContextPrivate) :
  trace d' = trace d -> status d' = status d -> finalized_once d d'.
Proof.
  intros Ht Hs. apply (finalized_once_plain d d' []); auto.
  - now rewrite app_nil_r.
  - now rewrite Hs.
Qed.

Lemma finalized_once_trans (d1 d2 d3 : ContextPrivate) :
  finalized_once d1 d2 -> finalized_once d2 d3 -> finalized_once d1 d3.
Proof.
  intros (tr1 & H1 & C1) (tr2 & H2 & C2). exists (tr1 ++ tr2).
  split; [unfold added in *; now rewrite H2, H1, app_assoc |].
  rewrite finalizations_app.
  destruct (has_flag (status d1) Finalized).
  - destruct C1 as [F2 Z1]. rewrite F2 in C2. destruct C2 as [F3 Z2].
    split; [exact F3 | lia].
  - destruct C1 as [[F2 Z1] | [F2 Z1]]; rewrite F2 in C2.
    + destruct C2 as [[F3 Z2] | [F3 Z2]]; [left | right]; split; auto; lia.
    + destruct C2 as [F3 Z2]. right. split; auto; lia.
Qed.

Lemma finalized_once_error (msg : string) (d : ContextPrivate) :
  finalized_once d (Context_error msg d).
Proof.
  unfold Context_error. destruct (QString_isEmpty msg).
  - now apply finalized_once_same.
  - now apply (finalized_once_plain d _ [Log CUTELYST_CORE QtCriticalMsg msg]).
Qed.

Lemma finalized_once_finalize (d : ContextPrivate) :
  finalized_once d (Context_finalize d).
Proof.
  destruct (has_flag (status d) Finalized) eqn:Hfin.
  - unfold Context_finalize. rewrite Hfin.
    eapply finalized_once_plain; [reflexivity | reflexivity | reflexivity].
  - destruct (Context_finalize_first d Hfin) as [Hflag _].
    destruct (methods_trace d) as (_ & tr & Ht & Hcases).
    exists tr. split; [exact Ht |]. rewrite Hfin. right. split; [exact Hflag |].
    destruct Hcases as [(H & _) | [(_ & _ & ->) | (_ & _ & ->)]];
      [congruence | reflexivity | reflexivity].
Qed.

Lemma finalized_once_rule (RECURSION : option Z) :
  GuardedRule RECURSION finalized_once.
Proof.
  constructor.
  - intros d. now apply finalized_once_same.
  - apply finalized_once_trans.
  - apply finalized_once_error.
  - intros b d. now apply finalized_once_same.
  - intros d. now apply finalized_once_same.
  - intros d. apply (finalized_once_plain d _ []); auto.
    + cbn. now rewrite app_nil_r.
    + unfold Context_detachAsync. cbn [status set_status set_asyncDetached].
      now apply has_flag_lor_other.
  - apply finalized_once_finalize.
  - intros c d _.
    destruct (finalized_once_error (deep_recursion_msg c d) d) as (tr & Ht & H).
    exists tr. split; [exact Ht | exact H].
  - intros c d d2 r ps pe _ Hshape _ _ (tr & Ht & Hcases).
    unfold added, enter in Ht. cbn [trace set_trace set_stack] in Ht.
    change (status (enter c (ps ++ [Invoke (S (List.length (stack d))) c]) d))
      with (status d) in Hcases.
    exists ((ps ++ [Invoke (S (List.length (stack d))) c]) ++ tr
            ++ Returned (S (List.length (stack d))) c r :: pe).
    split.
    + unfold added, leave. cbn [trace set_trace set_stack].
      now rewrite Ht, <- !app_assoc.
    + assert (Hz : finalizations
                     ((ps ++ [Invoke (S (List.length (stack d))) c]) ++ tr
                      ++ Returned (S (List.length (stack d))) c r :: pe)
                   = finalizations tr).
      { rewrite !finalizations_app.
        destruct Hshape as [[-> ->] | (l & -> & [-> | ->])]; cbn; lia. }
      rewrite Hz. exact Hcases.
  - intros d. now apply finalized_once_same.
  - intros text d.
    now apply (finalized_once_plain d _ [Log CUTELYST_ASYNC QtWarningMsg text]).
  - intros d _. now apply finalized_once_same.
  - intros d. destruct (attachAsync_done_trace d) as [-> | [-> _]].
    + now apply finalized_once_same.
    + eapply finalized_once_trans; [| apply finalized_once_finalize].
      now apply (finalized_once_plain d _ [AfterDispatch]).
Qed.

(** X12.  Whatever a script calls on the context, however often it calls
    [finalize] or resumes a request that ends with it, the response is
    handed to the engine at most once, and not at all when the context
    was finalized before; a context that is finalized stays so, and one
    whose response was handed over is finalized.  (That the engine marks
    the request as finalized when the response is handed over is taken
    from the spec.) *)
Theorem finalize_at_most_once
  (RECURSION : option Z) (fuel : nat) (s : Script) (d : ContextPrivate) :
  0 <= asyncAction d ->
  (enough_fuel s d <= fuel)%nat ->
  exists r d' tr,
    run RECURSION fuel s d = Some (r, d') /\
    trace d' = trace d ++ tr /\
    (finalizations tr <= 1)%nat /\
    (has_flag (status d) Finalized = true ->
     has_flag (status d') Finalized = true /\ finalizations tr = O) /\
    (finalizations tr = 1%nat -> has_flag (status d') Finalized = true).
Proof.
  intros Hpos Hfuel.
  destruct (run_gives RECURSION fuel s d Hpos Hfuel) as (r & d' & Hrun).
  destruct (run_guarded _ _ (finalized_once_rule RECURSION) fuel _ _ _ _ Hrun)
    as (tr & Ht & Hcases).
  exists r, d', tr. split; [exact Hrun |]. split; [exact Ht |].
  destruct (has_flag (status d) Finalized).
  - destruct Hcases as [Hf Hz]. repeat split; auto; lia.
  - destruct Hcases as [[Hf Hz] | [Hf Hz]]; repeat split; auto; try lia; discriminate.
Qed.

(* ================================================================= *)
(** ** detached *)

Lemma detached_stays_rule (RECURSION : option Z) :
  GuardedRule RECURSION detached_stays.
Proof.
  constructor; unfold detached_stays; try (intros; now unfold_methods).
  - intros d1 d2 d3 H1 H2 H. auto.
  - intros c d d2 r ps pe _ _ _ _ H. exact H.
Qed.

(** X13.  No call on the context takes [detached] back: once it is set it
    stays set through every run, and [detach] without an action sets
    it whatever it was. *)
Theorem detached_never_reset
  (RECURSION : option Z) (fuel : nat) (s : Script) (d : ContextPrivate) :
  0 <= asyncAction d ->
  (enough_fuel s d <= fuel)%nat ->
  detached d = true ->
  (exists r d', run RECURSION fuel s d = Some (r, d') /\ detached d' = true)
  /\ (forall fuel' d0 d0',
        detach RECURSION fuel' None d0 = Some d0' -> detached d0' = true).
Proof.
  intros Hpos Hfuel Hdet. split.
  - destruct (run_gives RECURSION fuel s d Hpos Hfuel) as (r & d' & Hrun).
    exists r, d'. split; [exact Hrun |].
    exact (run_guarded _ _ (detached_stays_rule RECURSION) fuel _ _ _ _ Hrun Hdet).
  - intros fuel' d0 d0' H. injection H as <-. reflexivity.
Qed.

(* ================================================================= *)
(** ** Suspensions in a row *)

Lemma detachAsync_times_succ (n : nat) (d : ContextPrivate) :
  0 <= asyncDetached d ->
  asyncDetached d + Z.of_nat (S n) <= INT_MAX ->
  detachAsync_times (S n) d
  = set_status (Z.lor (status d) Async)
      (set_asyncDetached (asyncDetached d + Z.of_nat (S n)) d).
Proof.
  intros Hpos. induction n as [| n IH]; intros Hmax.
  - unfold detachAsync_times. cbn [Nat.iter nat_rect]. unfold Context_detachAsync.
    rewrite int32_small by (unfold INT_MIN, INT_MAX in *; lia). reflexivity.
  - unfold detachAsync_times in *. rewrite Nat.iter_succ, IH by lia.
    unfold Context_detachAsync.
    cbn [asyncDetached status set_status set_asyncDetached].
    rewrite int32_small by (unfold INT_MIN, INT_MAX in *; lia).
    rewrite <- Z.lor_assoc, Z.lor_diag.
    unfold set_status, set_asyncDetached. cbn. f_equal. lia.
Qed.

Lemma attachAsync_times_outstanding (RECURSION : option Z) (fuel : nat) (n : nat) :
  forall d,
    Z.of_nat n < INT_MAX ->
    attachAsync_times RECURSION fuel n (set_asyncDetached (1 + Z.of_nat n) d)
    = Some (set_asyncDetached 1 d).
Proof.
  induction n as [| n IH]; intros d Hmax; [reflexivity |].
  cbn [attachAsync_times].
  assert (Hstep : attachAsync RECURSION fuel (set_asyncDetached (1 + Z.of_nat (S n)) d)
                  = Some (set_asyncDetached (1 + Z.of_nat n) d)).
  { unfold attachAsync, Context_attachAsync. cbn [asyncDetached set_asyncDetached].
    rewrite int32_small by (unfold INT_MIN, INT_MAX in *; lia).
    replace (1 + Z.of_nat (S n) - 1) with (1 + Z.of_nat n) by lia.
    destruct (Z.eqb_spec (1 + Z.of_nat n) 0) as [E | _]; [lia | reflexivity]. }
  rewrite Hstep. apply IH. lia.
Qed.

Lemma attachAsync_times_last (RECURSION : option Z) (fuel : nat) (n : nat) :
  forall d d1,
    attachAsync_times RECURSION fuel n d = Some d1 ->
    attachAsync_times RECURSION fuel (S n) d = attachAsync RECURSION fuel d1.
Proof.
  induction n as [| n IH]; intros d d1 H.
  - injection H as <-. cbn. now destruct (attachAsync RECURSION fuel d).
  - cbn [attachAsync_times] in H.
    change (attachAsync_times RECURSION fuel (S (S n)) d)
      with (match attachAsync RECURSION fuel d with
            | None => None
            | Some d0 => attachAsync_times RECURSION fuel (S n) d0
            end).
    destruct (attachAsync RECURSION fuel d) as [d0 |]; [| discriminate].
    now apply IH.
Qed.

(** X14.  Suspensions count: after [detachAsync] has been called [n + 1] times
    on a context that was not suspended, the first [n] calls of
    [attachAsync] only count down and leave the context as one
    [detachAsync] alone leaves it, and the last one does what
    [attachAsync] does after a single [detachAsync]. *)
Theorem suspensions_converge
  (RECURSION : option Z) (fuel : nat) (n : nat) (d : ContextPrivate) :
  asyncDetached d = 0 ->
  Z.of_nat n < INT_MAX ->
  attachAsync_times RECURSION fuel n (detachAsync_times (S n) d)
  = Some (Context_detachAsync d)
  /\ attachAsync_times RECURSION fuel (S n) (detachAsync_times (S n) d)
     = attachAsync RECURSION fuel (Context_detachAsync d).
Proof.
  intros Hzero Hmax.
  assert (Hfirst : attachAsync_times RECURSION fuel n (detachAsync_times (S n) d)
                   = Some (Context_detachAsync d)).
  { rewrite detachAsync_times_succ by (rewrite Hzero; unfold INT_MAX in *; lia).
    rewrite Hzero.
    replace (0 + Z.of_nat (S n)) with (1 + Z.of_nat n) by lia.
    change (set_status (Z.lor (status d) Async) (set_asyncDetached (1 + Z.of_nat n) d))
      with (set_asyncDetached (1 + Z.of_nat n) (set_status (Z.lor (status d) Async) d)).
    rewrite attachAsync_times_outstanding by exact Hmax.
    unfold Context_detachAsync. rewrite Hzero. reflexivity. }
  split; [exact Hfirst |].
  now apply attachAsync_times_last.
Qed.

(** X15.  A request that was finalized while it was suspended is not resumed:
    the [attachAsync] that matches the [detachAsync] only logs a warning.
    No pending action is run, the cursor stays where it was, and the
    response is not handed over again. *)
Theorem attachAsync_after_finalize
  (RECURSION : option Z) (fuel : nat) (d : ContextPrivate) :
  asyncDetached d = 0 ->
  attachAsync RECURSION fuel (Context_finalize (Context_detachAsync d))
  = Some (emit attach_finalized_warning
            (set_asyncDetached 0 (Context_finalize (Context_detachAsync d))))
  /\ forall d',
      attachAsync RECURSION fuel (Context_finalize (Context_detachAsync d)) = Some d' ->
      asyncAction d' = asyncAction d
      /\ finalizations (trace d')
         = finalizations (trace (Context_finalize (Context_detachAsync d)))
      /\ invoked_at (S (List.length (stack d))) (trace d')
         = invoked_at (S (List.length (stack d))) (trace d).
Proof.
  intros Hzero.
  set (d1 := Context_finalize (Context_detachAsync d)).
  assert (Hcount : asyncDetached d1 = 1).
  { unfold d1. unfold_methods; rewrite Hzero; reflexivity. }
  assert (Hfin : has_flag (status d1) Finalized = true).
  { unfold d1, Context_finalize.
    destruct (has_flag (status (Context_detachAsync d)) Finalized) eqn:Hf.
    - exact Hf.
    - unfold EngineRequest_finalize. cbn [status set_status].
      now apply has_flag_lor_same. }
  assert (Hrun : attachAsync RECURSION fuel d1
                 = Some (emit attach_finalized_warning (set_asyncDetached 0 d1))).
  { unfold attachAsync, Context_attachAsync. rewrite Hcount.
    change (int32 (1 - 1)) with 0.
    cbn [asyncDetached status set_asyncDetached Z.eqb negb]. now rewrite Hfin. }
  split; [exact Hrun |].
  intros d' H. rewrite Hrun in H. injection H as <-.
  unfold emit, attach_finalized_warning.
  cbn [asyncAction trace set_trace set_asyncDetached].
  rewrite finalizations_app, invoked_at_app. cbn [finalizations invoked_at].
  rewrite Nat.add_0_r, app_nil_r.
  repeat split.
  - unfold d1. now unfold_methods.
  - unfold d1. unfold_methods; rewrite ?invoked_at_app; cbn [invoked_at];
      rewrite ?app_nil_r; reflexivity.
Qed.

(* ================================================================= *)
(** ** These theorems at sample inputs *)

Lemma uriFor_path_edges_witness :
  (QString_isEmpty "blog/posts" = false
   /\ QString_startsWith "/"%char "blog/posts" = false)
  /\ url_path (Context_uriFor request_uri "blog/posts" EmptyString [] [])
     = "/blog/posts".
Proof.
  assert (H1 : QString_isEmpty "blog/posts" = false) by reflexivity.
  assert (H2 : QString_startsWith "/"%char "blog/posts" = false) by reflexivity.
  split; [split; assumption |].
  exact (proj1 (uriFor_path_edges request_uri "blog/posts" [] [] H1 H2)).
Defined.

Lemma cursor_stays_within_witness :
  (0 <= asyncAction (Context_detachAsync (fresh [act_ok; act_suspend; act_ok]))
   <= size (pendingAsync (Context_detachAsync (fresh [act_ok; act_suspend; act_ok])))
   /\ (enough_fuel (Then CallAttachAsync (Then CallAttachAsync (Ret true)))
         (Context_detachAsync (fresh [act_ok; act_suspend; act_ok])) <= 12)%nat)
  /\ exists r d',
      run None 12 (Then CallAttachAsync (Then CallAttachAsync (Ret true)))
        (Context_detachAsync (fresh [act_ok; act_suspend; act_ok])) = Some (r, d')
      /\ asyncAction d' <= size (pendingAsync d').
Proof.
  assert (H1 : 0 <= asyncAction (Context_detachAsync (fresh [act_ok; act_suspend; act_ok]))
               <= size (pendingAsync
                          (Context_detachAsync (fresh [act_ok; act_suspend; act_ok]))))
    by (vm_compute; split; discriminate).
  assert (H2 : (enough_fuel (Then CallAttachAsync (Then CallAttachAsync (Ret true)))
                  (Context_detachAsync (fresh [act_ok; act_suspend; act_ok])) <= 12)%nat)
    by (vm_compute; lia).
  split; [split; assumption |].
  destruct (cursor_stays_within None 12 _ _ H1 H2) as ((r & d' & Hrun & _ & Hin) & _).
  exists r, d'. split; [exact Hrun | exact (proj2 Hin)].
Defined.

Lemma invoked_within_limit_witness :
  (0 <= asyncAction (fresh [])
   /\ (enough_fuel (body act_nested) (fresh []) <= 10)%nat)
  /\ exists r d' tr,
      run (Some 1) 10 (body act_nested) (fresh []) = Some (r, d')
      /\ trace d' = trace (fresh []) ++ tr
      /\ forall n c, In (Invoke n c) tr -> Z.of_nat n <= 1.
Proof.
  assert (H1 : 0 <= asyncAction (fresh [])) by (vm_compute; discriminate).
  assert (H2 : (enough_fuel (body act_nested) (fresh []) <= 10)%nat)
    by (vm_compute; lia).
  split; [split; assumption |].
  exact (invoked_within_limit (Some 1) 10 (body act_nested) (fresh []) H1 H2).
Defined.

Lemma finalize_at_most_once_witness :
  (0 <= asyncAction (fresh [])
   /\ (enough_fuel (Then CallFinalize (Then CallFinalize (body act_nested)))
         (fresh []) <= 10)%nat)
  /\ exists r d' tr,
      run None 10 (Then CallFinalize (Then CallFinalize (body act_nested)))
        (fresh []) = Some (r, d')
      /\ trace d' = trace (fresh []) ++ tr
      /\ (finalizations tr <= 1)%nat.
Proof.
  assert (H1 : 0 <= asyncAction (fresh [])) by (vm_compute; discriminate).
  assert (H2 : (enough_fuel (Then CallFinalize (Then CallFinalize (body act_nested)))
                  (fresh []) <= 10)%nat) by (vm_compute; lia).
  split; [split; assumption |].
  destruct (finalize_at_most_once None 10 _ (fresh []) H1 H2)
    as (r & d' & tr & Hrun & Ht & Hle & _).
  exists r, d', tr. repeat split; assumption.
Defined.

Lemma detached_never_reset_witness :
  (0 <= asyncAction (set_detached true (fresh []))
   /\ (enough_fuel (body act_nested) (set_detached true (fresh [])) <= 10)%nat
   /\ detached (set_detached true (fresh [])) = true)
  /\ exists r d',
      run None 10 (body act_nested) (set_detached true (fresh [])) = Some (r, d')
      /\ detached d' = true.
Proof.
  assert (H1 : 0 <= asyncAction (set_detached true (fresh [])))
    by (vm_compute; discriminate).
  assert (H2 : (enough_fuel (body act_nested) (set_detached true (fresh [])) <= 10)%nat)
    by (vm_compute; lia).
  assert (H3 : detached (set_detached true (fresh [])) = true) by reflexivity.
  split; [repeat split; assumption |].
  exact (proj1 (detached_never_reset None 10 _ _ H1 H2 H3)).
Defined.

Lemma suspensions_converge_witness :
  (asyncDetached (fresh [act_ok]) = 0 /\ Z.of_nat 2 < INT_MAX)
  /\ attachAsync_times None 10 2 (detachAsync_times 3 (fresh [act_ok]))
     = Some (Context_detachAsync (fresh [act_ok])).
Proof.
  assert (H1 : asyncDetached (fresh [act_ok]) = 0) by reflexivity.
  assert (H2 : Z.of_nat 2 < INT_MAX) by reflexivity.
  split; [split; assumption |].
  exact (proj1 (suspensions_converge None 10 2 (fresh [act_ok]) H1 H2)).
Defined.

Lemma attachAsync_after_finalize_witness :
  asyncDetached (fresh [act_ok]) = 0
  /\ attachAsync None 10 (Context_finalize (Context_detachAsync (fresh [act_ok])))
     = Some (emit attach_finalized_warning
               (set_asyncDetached 0
                  (Context_finalize (Context_detachAsync (fresh [act_ok]))))).
Proof.
  assert (H : asyncDetached (fresh [act_ok]) = 0) by reflexivity.
  split; [exact H |].
  exact (proj1 (attachAsync_after_finalize None 10 (fresh [act_ok]) H)).
Defined.

(* ================================================================= *)
(** ** Push and pop around the body of a component *)

(** C4.  [execute] of any component, in any context, gives a result, and
    whatever the component does (it may fail, finalize, or run further
    components, each of which is run by [execute] in turn) and whatever
    it returns, the stack is afterwards as [execute] found it.  At the
    recursion limit nothing is pushed and the component does not run.
    Below it, the result of [execute] is that of the body of the
    component, run in the context in which the component has been pushed
    on the stack, so that the stack holds one component more, and in
    which the invocation has been recorded at that depth; the body leaves
    this stack as it is, with the component on top; and the context that
    [execute] returns is the one the body left, popped, after the return
    has been recorded.  And every run of a script, which is any sequence
    of calls on the context, leaves the stack as it found it. *)
Theorem execute_stack_paired
  (RECURSION : option Z) (fuel : nat) (c : Component) (d : ContextPrivate) :
  0 <= asyncAction d ->
  (script_size (body c) + pending_size d <= fuel)%nat ->
  (exists r d', execute RECURSION fuel c d = Some (r, d'))
  /\ (forall fuel' r d',
        execute RECURSION fuel' c d = Some (r, d') ->
        stack d' = stack d /\
        (recursion_limit RECURSION <= size (stack d) ->
         r = false /\
         d' = Context_setState false (Context_error (deep_recursion_msg c d) d)) /\
        (size (stack d) < recursion_limit RECURSION ->
         exists ps pe d2,
           profiled ps pe /\
           stack (push c d) = stack d ++ [c] /\
           run RECURSION fuel' (body c)
             (set_trace (trace d ++ ps ++ [Invoke (S (List.length (stack d))) c])
                        (push c d))
           = Some (r, d2) /\
           stack d2 = stack d ++ [c] /\
           d' = pop (set_trace
                       (trace d2 ++ Returned (S (List.length (stack d))) c r :: pe)
                       d2)))
  /\ (forall fuel' s d0 r d0',
        run RECURSION fuel' s d0 = Some (r, d0') -> stack d0' = stack d0).
Proof.
  intros Hpos Hfuel. split; [| split].
  - apply execute_gives; try assumption. apply run_gives.
  - intros fuel' r d' Hrun. split; [| split].
    + apply execute_frame in Hrun. apply Hrun.
    + intros Hge. apply Context_execute_inv_guarded in Hrun.
      destruct Hrun as [(_ & -> & ->) | (Hlt & _)]; [auto | lia].
    + intros Hbelow. apply Context_execute_inv_guarded in Hrun.
      destruct Hrun as [(Hge & _)
                       | (_ & ps & pe & d2 & Hshape & _ & _ & Hbody & ->)]; [lia |].
      exists ps, pe, d2. split; [exact Hshape |]. split; [reflexivity |].
      split; [exact Hbody |].
      apply run_frame in Hbody. destruct Hbody as [[Hstack _] _].
      split; [exact Hstack | reflexivity].
  - intros fuel' s d0 r d0' Hrun.
    apply run_frame in Hrun. apply Hrun.
Qed.

Lemma execute_stack_paired_witness :
  (0 <= asyncAction (fresh [])
   /\ (script_size (body act_nested) + pending_size (fresh []) <= 10)%nat)
  /\ exists r d' d2,
      execute None 10 act_nested (fresh []) = Some (r, d') /\
      stack d2 = stack (fresh []) ++ [act_nested] /\
      stack d' = removelast (stack d2) /\
      stack d' = stack (fresh []).
Proof.
  assert (H1 : 0 <= asyncAction (fresh [])) by (vm_compute; discriminate).
  assert (H2 : (script_size (body act_nested) + pending_size (fresh []) <= 10)%nat)
    by (vm_compute; lia).
  assert (H3 : size (stack (fresh [])) < recursion_limit None) by reflexivity.
  split; [split; assumption |].
  destruct (execute_stack_paired None 10 act_nested (fresh []) H1 H2)
    as ((r & d' & Hrun) & Hpaired & _).
  destruct (Hpaired 10%nat r d' Hrun) as (Hsame & _ & Hbody).
  destruct (Hbody H3) as (ps & pe & d2 & _ & _ & _ & Hstack & Hpop).
  exists r, d', d2. split; [exact Hrun |]. split; [exact Hstack |].
  split; [now rewrite Hpop | exact Hsame].
Defined.

(* ================================================================= *)
(** ** The profiler and a request finalized while a component runs *)

Lemma stats_off_once_finalized_same (d d' : ContextPrivate) :
  status d' = status d -> stats d' = stats d -> stats_off_once_finalized d d'.
Proof. unfold stats_off_once_finalized. intros -> ->. auto. Qed.

Lemma stats_off_once_finalized_finalize (d : ContextPrivate) :
  stats_off_once_finalized d (Context_finalize d).
Proof.
  unfold stats_off_once_finalized, Context_finalize, EngineRequest_finalize.
  destruct (has_flag (status d) Finalized) eqn:Hfin.
  - intros H _. now apply H.
  - intros _ _. destruct (stats d) eqn:Hstats; [reflexivity | exact Hstats].
Qed.

Lemma stats_off_once_finalized_rule (RECURSION : option Z) :
  GuardedRule RECURSION stats_off_once_finalized.
Proof.
  constructor.
  - intros d. now apply stats_off_once_finalized_same.
  - unfold stats_off_once_finalized. auto.
  - intros msg d. apply stats_off_once_finalized_same;
      unfold Context_error; now destruct (QString_isEmpty msg).
  - intros b d. now apply stats_off_once_finalized_same.
  - intros d. now apply stats_off_once_finalized_same.
  - intros d. unfold stats_off_once_finalized, Context_detachAsync.
    cbn [status stats set_status set_asyncDetached].
    now rewrite has_flag_lor_other.
  - apply stats_off_once_finalized_finalize.
  - intros c d _. now apply stats_off_once_finalized_same.
  - intros c d d2 r ps pe _ _ _ _ H. exact H.
  - intros d. now apply stats_off_once_finalized_same.
  - intros text d. now apply stats_off_once_finalized_same.
  - intros d _. now apply stats_off_once_finalized_same.
  - intros d. destruct (attachAsync_done_trace d) as [-> | [-> _]].
    + now apply stats_off_once_finalized_same.
    + intros H. apply stats_off_once_finalized_finalize. exact H.
Qed.

(** X10.  Without statistics no run tells the profiler anything or reports
    statistics, and none switches the statistics on; in every run the
    profiler is told of no more ends than starts; a run in which the
    context is finalized leaves the statistics off; and a component
    during whose execution the context is finalized is not reported to
    the profiler as ended: the last event of its execution is its
    return. *)
Theorem profiling_off_is_silent
  (RECURSION : option Z) (fuel : nat) (s : Script) (d : ContextPrivate) :
  0 <= asyncAction d ->
  (enough_fuel s d <= fuel)%nat ->
  exists r d' tr,
    run RECURSION fuel s d = Some (r, d') /\
    trace d' = trace d ++ tr /\
    (profile_ends tr <= profile_starts tr)%nat /\
    (stats d = false ->
     stats d' = false /\
     forall e, In e tr -> is_stats_event e = false) /\
    (has_flag (status d) Finalized = false ->
     has_flag (status d') Finalized = true ->
     stats d' = false) /\
    (forall c fuel' r1 d1,
       execute RECURSION fuel' c d = Some (r1, d1) ->
       has_flag (status d) Finalized = false ->
       has_flag (status d1) Finalized = true ->
       stats d1 = false /\
       exists tr1,
         trace d1
         = trace d ++ tr1 ++ [Returned (S (List.length (stack d))) c r1]).
Proof.
  intros Hpos Hfuel.
  destruct (run_gives RECURSION fuel s d Hpos Hfuel) as (r & d' & Hrun).
  destruct (run_guarded _ _ (profiling_kept_rule RECURSION) fuel _ _ _ _ Hrun)
    as (tr & Ht & Hle & Hoff).
  exists r, d', tr.
  split; [exact Hrun |]. split; [exact Ht |]. split; [exact Hle |].
  split; [| split].
  - intros Hstats. split; [now apply Hoff |].
    intros e Hin. destruct (Hoff Hstats) as [_ Hplain].
    rewrite forallb_forall in Hplain. apply negb_true_iff. now apply Hplain.
  - intros Hfin Hfin'.
    apply (run_guarded _ _ (stats_off_once_finalized_rule RECURSION)
             fuel _ _ _ _ Hrun); [congruence | exact Hfin'].
  - intros c fuel' r1 d1 Hexec Hfin Hfin1.
    assert (Hstats1 : stats d1 = false).
    { apply (execute_guarded _ _ (stats_off_once_finalized_rule RECURSION)
               fuel' _ _ _ _ Hexec); [congruence | exact Hfin1]. }
    split; [exact Hstats1 |].
    apply Context_execute_inv_guarded in Hexec.
    destruct Hexec as [(_ & _ & ->)
                      | (_ & ps & pe & d2 & _ & _ & Hoff2 & Hbody & ->)].
    + exfalso. revert Hfin1. unfold Context_setState, Context_error.
      destruct (QString_isEmpty (deep_recursion_msg c d));
        cbn [status set_state set_error emit set_trace]; congruence.
    + change (stats (leave (Returned (S (List.length (stack d))) c r1 :: pe) d2))
        with (stats d2) in Hstats1.
      rewrite (Hoff2 Hstats1).
      destruct (run_guarded _ _ (profiling_kept_rule RECURSION) fuel' _ _ _ _ Hbody)
        as (tr2 & Ht2 & _).
      unfold added, enter in Ht2. cbn [trace set_trace set_stack] in Ht2.
      exists ((ps ++ [Invoke (S (List.length (stack d))) c]) ++ tr2).
      unfold leave. cbn [trace set_trace set_stack].
      now rewrite Ht2, <- !app_assoc.
Qed.

(** A request with statistics runs an action that runs another and then
    finalizes the response. *)
Lemma profiling_off_is_silent_witness :
  (0 <= asyncAction fresh_with_stats
   /\ (enough_fuel (body act_nested) fresh_with_stats <= 10)%nat)
  /\ exists r d' tr,
      run None 10 (body act_nested) fresh_with_stats = Some (r, d')
      /\ trace d' = trace fresh_with_stats ++ tr
      /\ (profile_ends tr <= profile_starts tr)%nat
      /\ stats d' = false.
Proof.
  assert (H1 : 0 <= asyncAction fresh_with_stats) by (vm_compute; discriminate).
  assert (H2 : (enough_fuel (body act_nested) fresh_with_stats <= 10)%nat)
    by (vm_compute; lia).
  split; [split; assumption |].
  destruct (profiling_off_is_silent None 10 (body act_nested) fresh_with_stats H1 H2)
    as (r & d' & tr & Hrun & Ht & Hle & _ & Hfin & _).
  exists r, d', tr. split; [exact Hrun |]. split; [exact Ht |].
  split; [exact Hle |].
  apply Hfin; [reflexivity |].
  assert (Hv : exists v, run None 10 (body act_nested) fresh_with_stats = Some v
                         /\ has_flag (status (snd v)) Finalized = true)
    by (eexists; split; [vm_compute; reflexivity | reflexivity]).
  destruct Hv as (v & Hv & Hflag). rewrite Hv in Hrun.
  injection Hrun as Hrun. rewrite Hrun in Hflag. exact Hflag.
Defined.

(** With statistics, an action that finalizes the response is reported to
    the profiler as started and not as ended, while the action it ran
    before is reported as both. *)
Example profiler_start_without_end :
  exists d',
    execute None 10 act_nested fresh_with_stats = Some (false, d')
    /\ trace d'
       = [ProfileStart "/root/outer"; Invoke 1 act_nested;
          ProfileStart "/root/index"; Invoke 2 act_ok; Returned 2 act_ok true;
          ProfileEnd "/root/index";
          StatsReport; EngineFinalize; Returned 1 act_nested false]
    /\ stats d' = false.
Proof.
  eexists. split; [vm_compute; reflexivity |]. split; reflexivity.
Qed.

(* ================================================================= *)
(** ** Resuming pending actions of any kind *)



















(** A request whose first pending action suspends it and resumes it at
    once: the two entries after it run while it does, one level further
    up the stack; the response is handed over once, by the resumption
    within the action, and the resumption around it, which finds the
    queue exhausted, calls [finalize] in vain. *)
Example attachAsync_resumed_within_an_action :
  exists d',
    attachAsync None 20 (Context_detachAsync (fresh [act_resume; act_ok; act_fail]))
    = Some d'
    /\ invoked_at 1 (trace d') = [act_resume]
    /\ invoked_at 2 (trace d') = [act_ok; act_fail]
    /\ returned_at 2 (trace d') = [true; false]
    /\ asyncAction d' = 3
    /\ has_flag (status d') Finalized = true
    /\ finalizations (trace d') = 1%nat.
Proof.
  eexists. split; [vm_compute; reflexivity |].
  repeat split; reflexivity.
Qed.
